(** * TasteFusion backend ([backend/main.py]): meal store, taste profile,
      prompt composition and menu orchestration.

    The Python module keeps one global list [meals_db] and exposes handlers
    that read and write it.  Every handler is embedded as a function that
    takes the store (and whatever else it reads: the clock, the LLM agent)
    and gives back its response together with the store it leaves behind.

    Conventions.
    - A Python [str] is the [string] of its UTF-8 bytes (a lone surrogate
      in its three-byte form), so equality of texts is equality of strings;
      [len] counts characters, that is code points: the bytes that do not
      continue a multi-byte sequence.
    - A Python [dict] is an association list in insertion order: iteration
      order of a dict is part of what [get_taste_profile] computes.
    - [sorted(..., key=..., reverse=True)] is a stable sort, and stays stable
      under [reverse=True]; every stable sort has the same output, so it is
      embedded as a stable insertion sort.
    - [home_count / len(meals_db)] is a quotient of two integers; Python
      rounds it to the nearest double.  The development keeps the exact
      rational in [Q]; the values the properties below single out
      (0, 3/8, 1/2, 1) are doubles.
    - [Field(pattern="^(home|outside)$")] is checked by pydantic's regex
      engine, where [$] only matches at the very end of the text: the field
      is valid exactly when it is one of the two words. *)

From Stdlib Require Import List String Ascii Bool Arith ZArith QArith Lia.
From Stdlib Require Import Sorting.Sorted Permutation DecimalString.
Import ListNotations.
Local Close Scope Q_scope.
Local Open Scope string_scope.
Local Open Scope list_scope.

(** ** Data models *)

(** [datetime] values are opaque instants; only their identity matters. *)
Definition datetime := Z.

Record Meal := mkMeal {
  name : string;
  cuisine : string;
  ingredients : list string;
  flavors : list string;
  meal_type : string;
  restaurant_name : option string;
  notes : option string;
  timestamp : datetime
}.

Record MealInput := mkMealInput {
  in_name : string;
  in_cuisine : string;
  in_ingredients : list string;
  in_flavors : list string;
  in_meal_type : string;
  in_restaurant_name : option string;
  in_notes : option string
}.

Record FusionRequest := mkFusionRequest {
  fusion_style : option string;
  dietary_restrictions : list string;
  difficulty : string;
  cooking_time : option Z
}.

Record TasteProfile := mkTasteProfile {
  favorite_cuisines : list string;
  preferred_flavors : list string;
  common_ingredients : list string;
  home_vs_outside_ratio : Q;
  meal_count : nat
}.

Record FusionRecipe := mkFusionRecipe {
  recipe_name : string;
  description : string;
  fusion_of : list string;
  recipe_ingredients : list string;
  instructions : list string;
  prep_time : Z;
  cook_time : Z;
  recipe_difficulty : string;
  flavor_profile : list string;
  why_youll_love_it : string
}.

Record UserPreferences := mkUserPreferences {
  meals : list Meal;
  taste_profile : TasteProfile
}.

(** ** Python dictionaries with string keys and counter values *)

Module Dict.

Definition t := list (string * nat).

Definition empty : t := [].

(** [d.get(k, default)] *)
Fixpoint get (d : t) (k : string) (default : nat) : nat :=
  match d with
  | [] => default
  | (k', v) :: d' => if String.eqb k' k then v else get d' k default
  end.

(** [d[k] = v]: an existing key keeps its place, a new key goes last. *)
Fixpoint set (d : t) (k : string) (v : nat) : t :=
  match d with
  | [] => [(k, v)]
  | (k', v') :: d' =>
      if String.eqb k' k then (k', v) :: d' else (k', v') :: set d' k v
  end.

(** [d.items()] *)
Definition items (d : t) : list (string * nat) := d.

(** [d[k] = d.get(k, 0) + 1] *)
Definition incr (d : t) (k : string) : t := set d k (get d k 0 + 1).

End Dict.

(** ** [sorted(items, key=lambda x: x[1], reverse=True)] *)

Fixpoint insert_desc (x : string * nat) (l : list (string * nat))
  : list (string * nat) :=
  match l with
  | [] => [x]
  | y :: l' =>
      if Nat.ltb (snd x) (snd y) then y :: insert_desc x l' else x :: y :: l'
  end.

Fixpoint sorted_desc (l : list (string * nat)) : list (string * nat) :=
  match l with
  | [] => []
  | x :: l' => insert_desc x (sorted_desc l')
  end.

(** ** In-memory storage and [get_taste_profile] *)

Definition meals_db := list Meal.

(** The four accumulators of the counting loop. *)
Module Counts.
Record t := mk {
  cuisines : Dict.t;
  flavors : Dict.t;
  ingredients : Dict.t;
  home_count : nat
}.
Definition init : t := mk Dict.empty Dict.empty Dict.empty 0.
End Counts.

(** One turn of [for meal in meals_db]. *)
Definition count_meal (c : Counts.t) (meal : Meal) : Counts.t :=
  {| Counts.cuisines := Dict.incr (Counts.cuisines c) (cuisine meal);
     Counts.flavors := fold_left Dict.incr (flavors meal) (Counts.flavors c);
     Counts.ingredients :=
       fold_left Dict.incr (ingredients meal) (Counts.ingredients c);
     Counts.home_count :=
       if String.eqb (meal_type meal) "home"
       then Counts.home_count c + 1 else Counts.home_count c |}.

Definition count_meals (db : meals_db) : Counts.t :=
  fold_left count_meal db Counts.init.

(** [[x[0] for x in sorted(d.items(), ...)[:n]]] *)
Definition top (n : nat) (d : Dict.t) : list string :=
  map fst (firstn n (sorted_desc (Dict.items d))).

Definition get_taste_profile (db : meals_db) : TasteProfile :=
  match db with
  | [] =>
      {| favorite_cuisines := [];
         preferred_flavors := [];
         common_ingredients := [];
         home_vs_outside_ratio := (1 # 2)%Q;
         meal_count := 0 |}
  | _ :: _ =>
      let c := count_meals db in
      {| favorite_cuisines := top 5 (Counts.cuisines c);
         preferred_flavors := top 5 (Counts.flavors c);
         common_ingredients := top 10 (Counts.ingredients c);
         home_vs_outside_ratio :=
           (Z.of_nat (Counts.home_count c) # Pos.of_nat (List.length db))%Q;
         meal_count := List.length db |}
  end.

(** ** Exceptions and HTTP errors *)

(** What a handler can see raised.  A pydantic [ValidationError] lists the
    fields it rejects; an [AgentError] is whatever the LLM client raises
    (its text is opaque); [IndexError] is [list.pop] out of range. *)
Inductive Exception :=
| ValidationError (fields : list string)
| AgentError (text : string)
| IndexError.

(** The [detail] of an [HTTPException]: a literal, or a prefix followed by
    [str(e)] of the exception that was caught. *)
Inductive Detail :=
| Text (s : string)
| StrOf (prefix : string) (e : Exception).

(** How a request ends when it does not succeed: FastAPI rejects the body
    before the handler runs (422), or the handler raises. *)
Inductive Failure :=
| RequestValidationError (e : Exception)
| HTTPException (status_code : nat) (detail : Detail).

Definition HTTP_400_BAD_REQUEST := 400%nat.
Definition HTTP_404_NOT_FOUND := 404%nat.
Definition HTTP_500_INTERNAL_SERVER_ERROR := 500%nat.

(** [str(n)] for integers. *)
Definition str_nat (n : nat) : string :=
  NilZero.string_of_uint (Nat.to_uint n).
Definition str_int (z : Z) : string :=
  NilZero.string_of_int (Z.to_int z).

(** ** Field validation *)

(** A byte [10xxxxxx] continues the encoding of a code point. *)
Definition is_continuation (c : ascii) : bool :=
  match c with
  | Ascii _ _ _ _ _ _ b6 b7 => b7 && negb b6
  end.

(** [len(s)]: the number of code points of the text. *)
Fixpoint len (s : string) : nat :=
  match s with
  | EmptyString => 0
  | String c s => if is_continuation c then len s else S (len s)
  end.

(** [Field(..., min_length=lo, max_length=hi)]: pydantic counts
    characters. *)
Definition length_ok (lo hi : nat) (s : string) : bool :=
  Nat.leb lo (len s) && Nat.leb (len s) hi.

(** [Field(..., pattern="^(home|outside)$")] *)
Definition meal_type_ok (s : string) : bool :=
  String.eqb s "home" || String.eqb s "outside".

(** [Field(default="medium", pattern="^(easy|medium|hard)$")] *)
Definition difficulty_ok (s : string) : bool :=
  String.eqb s "easy" || String.eqb s "medium" || String.eqb s "hard".

(** The fields pydantic rejects, in declaration order. *)
Definition meal_field_errors (n c t : string) : list string :=
  (if length_ok 1 200 n then [] else ["name"]) ++
  (if length_ok 1 100 c then [] else ["cuisine"]) ++
  (if meal_type_ok t then [] else ["meal_type"]).

(** [MealInput(...)]: the record if its fields pass, the error otherwise. *)
Definition MealInput_init (i : MealInput) : Exception + MealInput :=
  match meal_field_errors (in_name i) (in_cuisine i) (in_meal_type i) with
  | [] => inr i
  | errs => inl (ValidationError errs)
  end.

(** [Meal(name=..., ..., notes=...)]; [timestamp] takes its default,
    [datetime.now()], whose reading is [now]. *)
Definition Meal_init (n c : string) (ingr flav : list string) (t : string)
    (r nt : option string) (now : datetime) : Exception + Meal :=
  match meal_field_errors n c t with
  | [] => inr (mkMeal n c ingr flav t r nt now)
  | errs => inl (ValidationError errs)
  end.

Definition Meal_of_input (meal_input : MealInput) (now : datetime)
  : Exception + Meal :=
  Meal_init (in_name meal_input) (in_cuisine meal_input)
    (in_ingredients meal_input) (in_flavors meal_input)
    (in_meal_type meal_input) (in_restaurant_name meal_input)
    (in_notes meal_input) now.

(** ** Meal endpoints *)

Module AddMeal.
Record response := mk {
  success : bool;
  message : string;
  meal_count : nat
}.
End AddMeal.

(** [add_meal]: the handler body, given the [MealInput] it is called with. *)
Definition add_meal (meal_input : MealInput) (now : datetime) (db : meals_db)
  : (Failure + AddMeal.response) * meals_db :=
  match Meal_of_input meal_input now with
  | inr meal =>
      let db := db ++ [meal] in
      (inr {| AddMeal.success := true;
              AddMeal.message :=
                "Added '" ++ name meal ++ "' to your meal history";
              AddMeal.meal_count := List.length db |}, db)
  | inl e =>
      (inl (HTTPException HTTP_400_BAD_REQUEST (StrOf EmptyString e)), db)
  end.

(** [POST /meals]: FastAPI builds the [MealInput] from the request body and
    only then calls the handler. *)
Definition post_meals (body : MealInput) (now : datetime) (db : meals_db)
  : (Failure + AddMeal.response) * meals_db :=
  match MealInput_init body with
  | inl e => (inl (RequestValidationError e), db)
  | inr meal_input => add_meal meal_input now db
  end.

Module GetMeals.
Record response := mk {
  meals : list Meal;
  count : nat
}.
End GetMeals.

Definition get_meals (db : meals_db) : GetMeals.response :=
  {| GetMeals.meals := map (fun meal => meal) db;
     GetMeals.count := List.length db |}.

(** [list.pop(index)]: a negative index counts from the end; out of range
    raises [IndexError]. *)
Definition pop {A} (l : list A) (index : Z) : option (A * list A) :=
  let i := if (index <? 0)%Z then (index + Z.of_nat (List.length l))%Z
           else index in
  if (i <? 0)%Z then None
  else match nth_error l (Z.to_nat i) with
       | Some x => Some (x, firstn (Z.to_nat i) l ++ skipn (S (Z.to_nat i)) l)
       | None => None
       end.

Module DeleteMeal.
Record response := mk {
  success : bool;
  message : string
}.
End DeleteMeal.

(** The store part of [delete_meal]: the range check and
    [removed = meals_db.pop(index)]. *)
Definition remove (index : Z) (db : meals_db)
  : (Failure + Meal) * meals_db :=
  if (index <? 0)%Z || (index >=? Z.of_nat (List.length db))%Z then
    (inl (HTTPException HTTP_404_NOT_FOUND (Text "Meal not found")), db)
  else
    match pop db index with
    | Some (removed, db) => (inr removed, db)
    | None =>
        (inl (HTTPException HTTP_500_INTERNAL_SERVER_ERROR
                (Text "Internal Server Error")), db)
    end.

Definition delete_meal (index : Z) (db : meals_db)
  : (Failure + DeleteMeal.response) * meals_db :=
  match remove index db with
  | (inl f, db) => (inl f, db)
  | (inr removed, db) =>
      (inr {| DeleteMeal.success := true;
              DeleteMeal.message :=
                "Removed '" ++ name removed ++ "' from history" |}, db)
  end.

Definition get_profile (db : meals_db) : TasteProfile := get_taste_profile db.

(** ** Recipe generation *)

(** [" ".join(prompt_parts)] as built by [generate_fusion_recipe].  The
    tests [if request.fusion_style], [if request.dietary_restrictions] and
    [if request.cooking_time] are Python truth tests: [None], the empty
    string, the empty list and [0] are all false. *)
Definition request_prompt (request : FusionRequest) : string :=
  let prompt_parts := ["Create a unique fusion recipe for me."] in
  let prompt_parts :=
    match fusion_style request with
    | Some s =>
        if String.eqb s EmptyString then prompt_parts
        else prompt_parts ++ [("Fusion style: " ++ s)%string]
    | None => prompt_parts
    end in
  let prompt_parts :=
    match dietary_restrictions request with
    | [] => prompt_parts
    | rs =>
        prompt_parts ++
          [("Dietary restrictions: " ++ String.concat ", " rs)%string]
    end in
  let prompt_parts :=
    prompt_parts ++ [("Difficulty level: " ++ difficulty request)%string] in
  let prompt_parts :=
    match cooking_time request with
    | Some t =>
        if (t =? 0)%Z then prompt_parts
        else prompt_parts ++
               [("Maximum cooking time: " ++ str_int t ++ " minutes")%string]
    | None => prompt_parts
    end in
  String.concat " " prompt_parts.

Module GenerateRecipe.
Record response := mk {
  success : bool;
  recipe : FusionRecipe;
  taste_profile_used : TasteProfile
}.
End GenerateRecipe.

Module WeeklyMenu.
Record entry := mkEntry {
  day : string;
  recipe : FusionRecipe
}.
Record response := mk {
  success : bool;
  weekly_menu : list entry
}.
End WeeklyMenu.

Definition days : list string :=
  ["Monday"; "Tuesday"; "Wednesday"; "Thursday"; "Friday"; "Saturday";
   "Sunday"].

Definition day_prompt (day : string) : string :=
  ("Create a unique fusion recipe for " ++ day ++
   ". Make it different from typical weekday meals if it's a weekend.")%string.

Section Agent.

(** The LLM client is a collaborator.  [World] is everything an awaited
    call can depend on and change; [fusion_agent_run prompt deps] is
    [await fusion_agent.run(prompt, deps=deps)] followed by [.data]: a
    validated recipe, or the exception the client raised. *)
Variable World : Type.
Variable fusion_agent_run :
  string -> UserPreferences -> World -> (Exception + FusionRecipe) * World.

(** [generate_fusion_recipe]; [db] is [meals_db] as the handler finds it. *)
Definition generate_fusion_recipe (request : FusionRequest) (db : meals_db)
    (w : World) : (Failure + GenerateRecipe.response) * World :=
  let taste_profile := get_taste_profile db in
  let user_prefs := mkUserPreferences db taste_profile in
  let prompt := request_prompt request in
  match fusion_agent_run prompt user_prefs w with
  | (inr data, w) =>
      (inr {| GenerateRecipe.success := true;
              GenerateRecipe.recipe := data;
              GenerateRecipe.taste_profile_used := taste_profile |}, w)
  | (inl e, w) =>
      (inl (HTTPException HTTP_500_INTERNAL_SERVER_ERROR
              (StrOf "Failed to generate recipe: " e)), w)
  end.

(** The body of [for day in days], with [recipes] as accumulated so far.
    An exception leaves the loop at once. *)
Fixpoint weekly_loop (ds : list string) (user_prefs : UserPreferences)
    (recipes : list WeeklyMenu.entry) (w : World)
  : (Exception + list WeeklyMenu.entry) * World :=
  match ds with
  | [] => (inr recipes, w)
  | day :: ds =>
      let prompt := day_prompt day in
      match fusion_agent_run prompt user_prefs w with
      | (inr data, w) =>
          weekly_loop ds user_prefs
            (recipes ++ [WeeklyMenu.mkEntry day data]) w
      | (inl e, w) => (inl e, w)
      end
  end.

Definition generate_weekly_menu (db : meals_db) (w : World)
  : (Failure + WeeklyMenu.response) * World :=
  let taste_profile := get_taste_profile db in
  let user_prefs := mkUserPreferences db taste_profile in
  match weekly_loop days user_prefs [] w with
  | (inr recipes, w) =>
      (inr {| WeeklyMenu.success := true;
              WeeklyMenu.weekly_menu := recipes |}, w)
  | (inl e, w) =>
      (inl (HTTPException HTTP_500_INTERNAL_SERVER_ERROR
              (StrOf "Failed to generate weekly menu: " e)), w)
  end.

End Agent.

(** ** Sample data *)

Definition sample_fields : list MealInput :=
  [ mkMealInput "Butter Chicken" "Indian"
      ["chicken"; "butter"; "tomatoes"; "cream"; "garam masala"]
      ["creamy"; "spicy"; "rich"] "home" None (Some "Mom's recipe");
    mkMealInput "Margherita Pizza" "Italian"
      ["dough"; "tomatoes"; "mozzarella"; "basil"]
      ["savory"; "cheesy"; "herby"] "outside" (Some "Domino's") None;
    mkMealInput "Pad Thai" "Thai"
      ["rice noodles"; "shrimp"; "peanuts"; "tamarind"; "bean sprouts"]
      ["sweet"; "sour"; "savory"; "nutty"] "outside" (Some "Thai Express")
      None;
    mkMealInput "Dal Makhani" "Indian"
      ["black lentils"; "butter"; "cream"; "tomatoes"; "spices"]
      ["creamy"; "smoky"; "rich"] "home" None None;
    mkMealInput "Sushi Roll" "Japanese"
      ["rice"; "nori"; "salmon"; "avocado"; "cucumber"]
      ["fresh"; "umami"; "light"] "outside" (Some "Sushi House") None;
    mkMealInput "Tacos Al Pastor" "Mexican"
      ["pork"; "pineapple"; "onions"; "cilantro"; "tortillas"]
      ["spicy"; "sweet"; "tangy"] "outside" (Some "Taco Bell") None;
    mkMealInput "Palak Paneer" "Indian"
      ["spinach"; "paneer"; "onions"; "garlic"; "cream"]
      ["creamy"; "mild"; "healthy"] "home" None None;
    mkMealInput "Kung Pao Chicken" "Chinese"
      ["chicken"; "peanuts"; "dried chilies"; "soy sauce"; "vegetables"]
      ["spicy"; "sweet"; "crunchy"] "outside" (Some "Wok Express") None ].

(** Building a list of pydantic objects stops at the first constructor that
    raises. *)
Fixpoint init_all (l : list MealInput) : Exception + list MealInput :=
  match l with
  | [] => inr []
  | i :: l =>
      match MealInput_init i with
      | inl e => inl e
      | inr i =>
          match init_all l with
          | inl e => inl e
          | inr l => inr (i :: l)
          end
      end
  end.

Module LoadSample.
Record response := mk {
  success : bool;
  message : string;
  total_meals : nat
}.
End LoadSample.

(** [for meal_input in sample_meals]; the [k]-th reading of the clock since
    the handler started is [clock k]. *)
Fixpoint load_loop (inputs : list MealInput) (clock : nat -> datetime)
    (k : nat) (db : meals_db) : (Exception + unit) * meals_db :=
  match inputs with
  | [] => (inr tt, db)
  | meal_input :: inputs =>
      match Meal_of_input meal_input (clock k) with
      | inl e => (inl e, db)
      | inr meal => load_loop inputs clock (S k) (db ++ [meal])
      end
  end.

(** [load_sample_data] has no [try]: an exception would reach the framework,
    which answers 500. *)
Definition load_sample_data (clock : nat -> datetime) (db : meals_db)
  : (Failure + LoadSample.response) * meals_db :=
  match init_all sample_fields with
  | inl e =>
      (inl (HTTPException HTTP_500_INTERNAL_SERVER_ERROR
              (Text "Internal Server Error")), db)
  | inr sample_meals =>
      match load_loop sample_meals clock 0 db with
      | (inl e, db) =>
          (inl (HTTPException HTTP_500_INTERNAL_SERVER_ERROR
                  (Text "Internal Server Error")), db)
      | (inr _, db) =>
          (inr {| LoadSample.success := true;
                  LoadSample.message :=
                    ("Loaded " ++ str_nat (List.length sample_meals) ++
                     " sample meals")%string;
                  LoadSample.total_meals := List.length db |}, db)
      end
  end.

(** * Vocabulary of the properties *)

(** The order a stable sort by decreasing count must produce, given the
    order [before] of the entries in its input: larger count first, and
    among equal counts the entry that came first. *)
Definition desc_then (before : string * nat -> string * nat -> Prop)
    (p q : string * nat) : Prop :=
  (snd q < snd p)%nat \/ (snd p = snd q /\ before p q).

(** ** Counting a sequence of names into a dictionary *)

Definition occurrences (a : string) (xs : list string) : nat :=
  count_occ string_dec xs a.

(** Position of the first occurrence of [a] in [xs] ([length xs] if none). *)
Fixpoint first_seen (a : string) (xs : list string) : nat :=
  match xs with
  | [] => 0
  | x :: xs => if String.eqb x a then 0 else S (first_seen a xs)
  end.

Definition keys (d : Dict.t) : list string := map fst d.

(** [d] is the tally of the names seen so far, [xs]: its keys are the
    distinct names in order of first appearance, each with its number of
    occurrences. *)
Record tally_of (xs : list string) (d : Dict.t) : Prop := {
  tally_order :
    StronglySorted (fun a b => (first_seen a xs < first_seen b xs)%nat)
      (keys d);
  tally_keys : forall a, In a (keys d) <-> In a xs;
  tally_counts : Forall (fun p => snd p = occurrences (fst p) xs) d
}.

(** [tally xs]: the dictionary the counting idiom builds from a sequence. *)
Definition tally (xs : list string) : Dict.t :=
  fold_left Dict.incr xs Dict.empty.

(** ** Ranking *)

(** [outranks xs a b]: [a] occurs more often than [b] in [xs], or as often
    and was seen first. *)
Definition outranks (xs : list string) (a b : string) : Prop :=
  (occurrences b xs < occurrences a xs)%nat \/
  (occurrences a xs = occurrences b xs /\
   (first_seen a xs < first_seen b xs)%nat).

(** [out] is the list of the [k] best-ranked names of [xs]. *)
Record ranked_top (k : nat) (xs out : list string) : Prop := {
  top_length : (List.length out <= k)%nat;
  top_sorted : StronglySorted (outranks xs) out;
  top_incl : forall a, In a out -> In a xs;
  top_best : forall a, In a xs -> ~ In a out ->
    List.length out = k /\ Forall (fun b => outranks xs b a) out
}.

(** ** The counting loop *)

Definition home_meals (db : meals_db) : list Meal :=
  filter (fun meal => String.eqb (meal_type meal) "home") db.

Definition profile_ranked (db : meals_db) (p : TasteProfile) : Prop :=
  ranked_top 5 (map cuisine db) (favorite_cuisines p) /\
  ranked_top 5 (flat_map flavors db) (preferred_flavors p) /\
  ranked_top 10 (flat_map ingredients db) (common_ingredients p).

Definition three_meals : meals_db :=
  [ mkMeal "Dal" "Indian" ["lentils"] ["spicy"] "home" None None 1%Z;
    mkMeal "Naan" "Indian" ["flour"] ["savory"] "outside" (Some "Tandoor")
      None 2%Z;
    mkMeal "Pasta" "Italian" ["flour"] ["savory"] "home" None None 3%Z ].

Definition home_only : meals_db :=
  [ mkMeal "Dal" "Indian" ["lentils"] ["spicy"] "home" None None 1%Z;
    mkMeal "Pasta" "Italian" ["flour"] ["savory"] "home" None None 2%Z ].

Definition outside_only : meals_db :=
  [ mkMeal "Sushi" "Japanese" ["rice"] ["fresh"] "outside" (Some "Sushi House")
      None 1%Z ].

Definition not_found : Failure :=
  HTTPException HTTP_404_NOT_FOUND (Text "Meal not found").

(** ** Adding meals *)

(** The constraints on a meal, as the data model words them. *)
Definition valid_meal_input (i : MealInput) : Prop :=
  (in_meal_type i = "home" \/ in_meal_type i = "outside") /\
  (1 <= len (in_name i) <= 200)%nat /\
  (1 <= len (in_cuisine i) <= 100)%nat.

(** The record [add_meal] stores for an input read at time [now]. *)
Definition stored (i : MealInput) (now : datetime) : Meal :=
  mkMeal (in_name i) (in_cuisine i) (in_ingredients i) (in_flavors i)
    (in_meal_type i) (in_restaurant_name i) (in_notes i) now.


Definition dal : MealInput :=
  mkMealInput "Dal" "Indian" ["lentils"] ["spicy"] "home" None None.




(** ** Sequences of additions *)

(** Serving [POST /meals] once per element of [calls], each with the body
    and the clock reading of that call: the responses and the final store. *)
Fixpoint add_calls (calls : list (MealInput * datetime)) (db : meals_db)
  : list (Failure + AddMeal.response) * meals_db :=
  match calls with
  | [] => ([], db)
  | (body, now) :: calls =>
      let (r, db) := post_meals body now db in
      let (rs, db) := add_calls calls db in
      (r :: rs, db)
  end.

Definition succeeded {A} (r : Failure + A) : Prop :=
  match r with inr _ => True | inl _ => False end.

Definition pasta : MealInput :=
  mkMealInput "Pasta" "Italian" ["flour"] ["savory"] "outside"
    (Some "Luigi's") None.

(** ** The request prompt *)

Definition base_instruction : string :=
  "Create a unique fusion recipe for me.".

Definition difficulty_clause (r : FusionRequest) : string :=
  "Difficulty level: " ++ difficulty r.

Definition restrictions_clause (r : FusionRequest) : list string :=
  match dietary_restrictions r with
  | [] => []
  | rs => [("Dietary restrictions: " ++ String.concat ", " rs)%string]
  end.

(** The clauses as the specification words them: the style and time
    clauses are present whenever the field is given. *)
Definition claimed_clauses (r : FusionRequest) : list string :=
  [base_instruction] ++
  match fusion_style r with
  | Some s => [("Fusion style: " ++ s)%string]
  | None => []
  end ++
  restrictions_clause r ++
  [difficulty_clause r] ++
  match cooking_time r with
  | Some t => [("Maximum cooking time: " ++ str_int t ++ " minutes")%string]
  | None => []
  end.

(** The clauses of the handler: a style that is the empty string and a
    cooking time of 0 count as not given. *)
Definition style_given (r : FusionRequest) : option string :=
  match fusion_style r with
  | Some EmptyString => None
  | o => o
  end.

Definition time_given (r : FusionRequest) : option Z :=
  match cooking_time r with
  | Some 0%Z => None
  | o => o
  end.

Definition request_clauses (r : FusionRequest) : list string :=
  [base_instruction] ++
  match style_given r with
  | Some s => [("Fusion style: " ++ s)%string]
  | None => []
  end ++
  restrictions_clause r ++
  [difficulty_clause r] ++
  match time_given r with
  | Some t => [("Maximum cooking time: " ++ str_int t ++ " minutes")%string]
  | None => []
  end.

Definition zero_minutes : FusionRequest :=
  mkFusionRequest None [] "medium" (Some 0%Z).

Definition plain_medium : FusionRequest :=
  mkFusionRequest None [] "medium" None.

Definition demo_recipe : FusionRecipe :=
  mkFusionRecipe "Masala Pasta" "Pasta in a spiced tomato sauce"
    ["Indian"; "Italian"] ["pasta"; "tomatoes"; "garam masala"]
    ["Boil the pasta"; "Simmer the sauce"; "Toss"] 10 20 "easy"
    ["spicy"; "savory"] "It joins your two favorite cuisines".

(** An agent whose world is the number of calls made so far; it raises on
    call number [bad] and gives [demo_recipe] otherwise. *)
Definition counting_agent (bad : nat) (prompt : string)
    (deps : UserPreferences) (calls : nat)
  : (Exception + FusionRecipe) * nat :=
  if Nat.eqb calls bad then (inl (AgentError "quota exceeded"), S calls)
  else (inr demo_recipe, S calls).

(** ** Sample data *)

(** The records [load_sample_data] stores, the first at clock reading
    [k]. *)
Fixpoint stamped (inputs : list MealInput) (clock : nat -> datetime)
    (k : nat) : list Meal :=
  match inputs with
  | [] => []
  | i :: inputs => stored i (clock k) :: stamped inputs clock (S k)
  end.

Section Serving.

Variable World : Type.
Variable run :
  string -> UserPreferences -> World -> (Exception + FusionRecipe) * World.

(** [served prefs ds w menu w']: starting in [w], the agent was asked once
    per day of [ds], in order, each time with that day's prompt and with
    [prefs] as dependencies; every call gave a recipe, [menu] pairs the days
    with the recipes, and [w'] is the world after the last call. *)
Inductive served (prefs : UserPreferences)
  : list string -> World -> list WeeklyMenu.entry -> World -> Prop :=
| served_nil w : served prefs [] w [] w
| served_cons day ds w data w1 menu w2 :
    run (day_prompt day) prefs w = (inr data, w1) ->
    served prefs ds w1 menu w2 ->
    served prefs (day :: ds) w (WeeklyMenu.mkEntry day data :: menu) w2.

(** [fails prefs ds w e w']: the calls for some first days of [ds] gave
    recipes and the call for the next day raised [e]. *)
Definition fails (prefs : UserPreferences) (ds : list string) (w : World)
    (e : Exception) (w' : World) : Prop :=
  exists done day rest menu w1,
    ds = done ++ day :: rest /\
    served prefs done w menu w1 /\
    run (day_prompt day) prefs w1 = (inl e, w').

End Serving.

(** ** The agent's user context *)

(** Python's [s or default] on strings: the empty string is false. *)
Definition or_else (s default : string) : string :=
  if String.eqb s EmptyString then default else s.

(** [m.restaurant_name or 'unknown'] *)
Definition or_unknown (o : option string) : string :=
  match o with
  | Some s => or_else s "unknown"
  | None => "unknown"
  end.

(** [l[-n:]] for a positive [n]: the last [n] elements, all of [l] when it
    is shorter. *)
Definition last_n {A} (n : nat) (l : list A) : list A :=
  skipn (List.length l - n) l.

(** [chr(10)] *)
Definition nl : string := String (ascii_of_nat 10) EmptyString.

Definition outside_meals (db : list Meal) : list Meal :=
  filter (fun m => String.eqb (meal_type m) "outside") db.

(** [', '.join(names) or 'Not enough data'] *)
Definition names_line (names : list string) : string :=
  or_else (String.concat ", " names) "Not enough data".

(** [f"- {m.name} ({m.cuisine}): {', '.join(m.flavors)}"] *)
Definition home_line (m : Meal) : string :=
  "- " ++ name m ++ " (" ++ cuisine m ++ "): " ++
  String.concat ", " (flavors m).

Definition outside_line (m : Meal) : string :=
  "- " ++ name m ++ " (" ++ cuisine m ++ ") at " ++
  or_unknown (restaurant_name m) ++ ": " ++ String.concat ", " (flavors m).

(** The two interpolated blocks,
    [chr(10).join([... for m in home_meals[-5:]]) or 'None logged'] and its
    twin for the outside meals. *)
Definition home_block (prefs : UserPreferences) : string :=
  or_else
    (String.concat nl (map home_line (last_n 5 (home_meals (meals prefs)))))
    "None logged".

Definition outside_block (prefs : UserPreferences) : string :=
  or_else
    (String.concat nl
       (map outside_line (last_n 5 (outside_meals (meals prefs)))))
    "None logged".

Definition new_user_note : string :=
  nl ++ "Note: This user is new and hasn't logged any meals yet." ++ nl ++
  "Create a universally appealing fusion recipe that showcases " ++
  "interesting flavor combinations." ++ nl ++
  "Suggest they log some meals to get more personalized recommendations." ++
  nl.

Section UserContext.

(** [format(x, '.0%')] works on the double; it is not modelled and stays a
    parameter. *)
Variable format_percent : Q -> string.

Definition add_user_context (prefs : UserPreferences) : string :=
  match meals prefs with
  | [] => new_user_note
  | _ :: _ =>
      nl ++ "User's Taste Profile Analysis:" ++ nl ++
      "- Total meals logged: " ++
      str_nat (meal_count (taste_profile prefs)) ++ nl ++
      "- Favorite cuisines: " ++
      names_line (favorite_cuisines (taste_profile prefs)) ++ nl ++
      "- Preferred flavors: " ++
      names_line (preferred_flavors (taste_profile prefs)) ++ nl ++
      "- Common ingredients: " ++
      names_line (common_ingredients (taste_profile prefs)) ++ nl ++
      "- Home cooking ratio: " ++
      format_percent (home_vs_outside_ratio (taste_profile prefs)) ++ nl ++
      nl ++ "Recent Home Meals:" ++ nl ++ home_block prefs ++ nl ++
      nl ++ "Recent Restaurant/Outside Meals:" ++ nl ++
      outside_block prefs ++ nl ++
      nl ++ "Create a fusion recipe that combines elements from their " ++
      "favorite cuisines and matches their flavor preferences." ++ nl
  end.

End UserContext.

(** ** Stores and request traces *)

(** The constraints the [Meal] model puts on a record. *)
Definition valid_meal (m : Meal) : Prop :=
  (meal_type m = "home" \/ meal_type m = "outside") /\
  (1 <= len (name m) <= 200)%nat /\
  (1 <= len (cuisine m) <= 100)%nat.

(** The requests that write to the store. *)
Inductive Request :=
| ReqPost (body : MealInput) (now : datetime)
| ReqDelete (index : Z)
| ReqLoadSample (clock : nat -> datetime).

(** The store a request leaves behind. *)
Definition serve (db : meals_db) (r : Request) : meals_db :=
  match r with
  | ReqPost body now => snd (post_meals body now db)
  | ReqDelete index => snd (delete_meal index db)
  | ReqLoadSample clock => snd (load_sample_data clock db)
  end.

Definition serve_all (rs : list Request) (db : meals_db) : meals_db :=
  fold_left serve rs db.

(** What the profile reads of a meal. *)
Definition taste (m : Meal) : string * list string * list string * string :=
  (cuisine m, flavors m, ingredients m, meal_type m).

(** An agent instrumented with the number of calls made to it. *)
Definition counted {World : Type}
    (run : string -> UserPreferences -> World
           -> (Exception + FusionRecipe) * World)
    (prompt : string) (deps : UserPreferences) (s : World * nat)
  : (Exception + FusionRecipe) * (World * nat) :=
  let (r, w) := run prompt deps (fst s) in (r, (w, S (snd s))).

Definition renamed_meals : meals_db :=
  [ mkMeal "Tadka Dal" "Indian" ["lentils"] ["spicy"] "home" None
      (Some "weeknight") 11%Z;
    mkMeal "Garlic Naan" "Indian" ["flour"] ["savory"] "outside"
      (Some "Curry House") None 12%Z;
    mkMeal "Penne" "Italian" ["flour"] ["savory"] "home" None None 13%Z ].

Definition reordered_meals : meals_db :=
  [ mkMeal "Pasta" "Italian" ["flour"] ["savory"] "home" None None 3%Z;
    mkMeal "Dal" "Indian" ["lentils"] ["spicy"] "home" None None 1%Z;
    mkMeal "Naan" "Indian" ["flour"] ["savory"] "outside" (Some "Tandoor")
      None 2%Z ].

(** * Properties *)

(** ** Sorted lists: generic facts *)

Section SortedFacts.

Context {A : Type}.

Lemma StronglySorted_weaken (R R' : A -> A -> Prop) (l : list A) :
  (forall a b, In a l -> In b l -> R a b -> R' a b) ->
  StronglySorted R l -> StronglySorted R' l.
Proof.
  intros HR Hs. induction Hs as [|a l Hs IH Hall]; constructor.
  - apply IH. intros x y Hx Hy. apply HR; now right.
  - rewrite Forall_forall in *. intros b Hb.
    apply HR; [now left | now right | now apply Hall].
Qed.

Lemma StronglySorted_snoc (R : A -> A -> Prop) (l : list A) (x : A) :
  StronglySorted R l -> Forall (fun a => R a x) l ->
  StronglySorted R (l ++ [x]).
Proof.
  intros Hs Hx. induction Hs as [|a l Hs IH Hall]; simpl.
  - repeat constructor.
  - inversion Hx; subst. constructor; [now apply IH|].
    apply Forall_app; split; [assumption | now constructor].
Qed.

Lemma StronglySorted_app_cross (R : A -> A -> Prop) (l1 l2 : list A) :
  StronglySorted R (l1 ++ l2) ->
  forall a b, In a l1 -> In b l2 -> R a b.
Proof.
  induction l1 as [|x l1 IH]; simpl; intros Hs a b Ha Hb; [easy|].
  inversion Hs as [|? ? Hs' Hall]; subst. destruct Ha as [<-|Ha].
  - rewrite Forall_forall in Hall. apply Hall, in_or_app. now right.
  - now apply IH.
Qed.

Lemma In_firstn (k : nat) (l : list A) (a : A) :
  In a (firstn k l) -> In a l.
Proof.
  intros H. assert (H' : In a (firstn k l ++ skipn k l))
    by (apply in_or_app; now left).
  now rewrite firstn_skipn in H'.
Qed.

Lemma StronglySorted_firstn (R : A -> A -> Prop) (k : nat) (l : list A) :
  StronglySorted R l -> StronglySorted R (firstn k l).
Proof.
  intros Hs. revert k. induction Hs as [|a l Hs IH Hall]; intros [|k];
    simpl; try constructor.
  - apply IH.
  - rewrite Forall_forall in *. intros b Hb.
    apply Hall. now apply In_firstn with k.
Qed.

Lemma StronglySorted_irrefl_NoDup (R : A -> A -> Prop) (l : list A) :
  (forall a, ~ R a a) -> StronglySorted R l -> NoDup l.
Proof.
  intros Hirr Hs. induction Hs as [|a l Hs IH Hall]; constructor; auto.
  intros Hin. rewrite Forall_forall in Hall. exact (Hirr a (Hall a Hin)).
Qed.

Lemma StronglySorted_map {B} (f : A -> B) (R : B -> B -> Prop) l :
  StronglySorted (fun p q => R (f p) (f q)) l ->
  StronglySorted R (map f l).
Proof.
  induction 1 as [|a l Hs IH Hall]; simpl; constructor; auto.
  rewrite Forall_forall in *. intros b Hb.
  apply in_map_iff in Hb as (q & <- & Hq). now apply Hall.
Qed.

End SortedFacts.

(** ** [sorted_desc] is a stable sort by decreasing count *)

Lemma insert_desc_perm x l : Permutation (insert_desc x l) (x :: l).
Proof.
  induction l as [|y l IH]; simpl; [reflexivity|].
  destruct (Nat.ltb (snd x) (snd y)); [|reflexivity].
  rewrite IH. apply perm_swap.
Qed.

Lemma sorted_desc_perm l : Permutation (sorted_desc l) l.
Proof.
  induction l as [|x l IH]; simpl; [reflexivity|].
  rewrite insert_desc_perm. now constructor.
Qed.

Lemma sorted_desc_In l p : In p (sorted_desc l) <-> In p l.
Proof.
  split; apply Permutation_in;
    [apply sorted_desc_perm | symmetry; apply sorted_desc_perm].
Qed.

Section Stable.

(** [before p q]: entry [p] precedes entry [q] in the list being sorted. *)
Variable before : string * nat -> string * nat -> Prop.

Lemma insert_desc_sorted x l :
  Forall (before x) l ->
  StronglySorted (desc_then before) l ->
  StronglySorted (desc_then before) (insert_desc x l).
Proof.
  intros Hx Hs. induction Hs as [|y l Hs IH Hall]; simpl.
  - repeat constructor.
  - inversion Hx as [|? ? Hxy Hxl]; subst.
    destruct (Nat.ltb (snd x) (snd y)) eqn:E.
    + apply Nat.ltb_lt in E. constructor; [now apply IH|].
      rewrite Forall_forall in *. intros z Hz.
      apply (Permutation_in _ (insert_desc_perm x l)) in Hz.
      destruct Hz as [<-|Hz]; [now left | now apply Hall].
    + apply Nat.ltb_ge in E. constructor; [now constructor|].
      constructor.
      * unfold desc_then. destruct (Nat.eq_dec (snd x) (snd y)); [|lia].
        right. now split.
      * rewrite Forall_forall in *. intros z Hz.
        specialize (Hall z Hz). specialize (Hxl z Hz).
        unfold desc_then in *.
        destruct (Nat.eq_dec (snd x) (snd z)); [right; now split | left].
        lia.
Qed.

Lemma sorted_desc_stable l :
  StronglySorted before l -> StronglySorted (desc_then before) (sorted_desc l).
Proof.
  induction 1 as [|x l Hs IH Hall]; simpl; [constructor|].
  apply insert_desc_sorted; [|assumption].
  rewrite Forall_forall in *. intros z Hz.
  now apply Hall, sorted_desc_In.
Qed.

End Stable.

Lemma occurrences_snoc a xs x :
  occurrences a (xs ++ [x]) =
  (occurrences a xs + if String.eqb x a then 1 else 0)%nat.
Proof.
  unfold occurrences. rewrite count_occ_app. simpl.
  destruct (string_dec x a) as [->|Hne].
  - now rewrite String.eqb_refl.
  - apply String.eqb_neq in Hne. now rewrite Hne.
Qed.

Lemma occurrences_notin a xs : ~ In a xs -> occurrences a xs = 0%nat.
Proof. intros H. now apply count_occ_not_In. Qed.

Lemma first_seen_In a xs : In a xs -> (first_seen a xs < List.length xs)%nat.
Proof.
  induction xs as [|x xs IH]; simpl; [easy|]. intros Hin.
  destruct (String.eqb x a) eqn:E; [lia|].
  apply String.eqb_neq in E. destruct Hin as [->|Hin]; [easy|].
  specialize (IH Hin). lia.
Qed.

Lemma first_seen_notin a xs : ~ In a xs -> first_seen a xs = List.length xs.
Proof.
  induction xs as [|x xs IH]; simpl; [easy|]. intros Hin.
  destruct (String.eqb x a) eqn:E.
  - apply String.eqb_eq in E. exfalso. apply Hin. now left.
  - f_equal. apply IH. intros H. apply Hin. now right.
Qed.

Lemma first_seen_app_In a xs ys :
  In a xs -> first_seen a (xs ++ ys) = first_seen a xs.
Proof.
  induction xs as [|x xs IH]; simpl; [easy|]. intros Hin.
  destruct (String.eqb x a) eqn:E; [reflexivity|].
  apply String.eqb_neq in E. destruct Hin as [->|Hin]; [easy|].
  now rewrite IH.
Qed.

Lemma first_seen_snoc_new x xs :
  ~ In x xs -> first_seen x (xs ++ [x]) = List.length xs.
Proof.
  induction xs as [|y xs IH]; simpl; intros Hin.
  - now rewrite String.eqb_refl.
  - destruct (String.eqb y x) eqn:E.
    + apply String.eqb_eq in E. exfalso. apply Hin. now left.
    + f_equal. apply IH. intros H. apply Hin. now right.
Qed.

Lemma incr_cons k' v d k :
  Dict.incr ((k', v) :: d) k =
  if String.eqb k' k then (k', v + 1)%nat :: d else (k', v) :: Dict.incr d k.
Proof. unfold Dict.incr. simpl. now destruct (String.eqb k' k). Qed.

Lemma keys_incr d k :
  keys (Dict.incr d k) =
  if in_dec string_dec k (keys d) then keys d else keys d ++ [k].
Proof.
  induction d as [|[k' v] d IH]; [reflexivity|].
  rewrite incr_cons. change (keys ((k', v) :: d)) with (k' :: keys d).
  destruct (in_dec string_dec k (k' :: keys d)) as [i'|n'];
    destruct (String.eqb k' k) eqn:E.
  - reflexivity.
  - apply String.eqb_neq in E.
    change (keys ((k', v) :: Dict.incr d k))
      with (k' :: keys (Dict.incr d k)).
    rewrite IH. destruct (in_dec string_dec k (keys d)) as [i|n]; trivial.
    exfalso. destruct i' as [->|i']; auto.
  - apply String.eqb_eq in E. exfalso. apply n'. now left.
  - change (keys ((k', v) :: Dict.incr d k))
      with (k' :: keys (Dict.incr d k)).
    rewrite IH. destruct (in_dec string_dec k (keys d)) as [i|n]; trivial.
    exfalso. apply n'. now right.
Qed.

Lemma tally_of_nil : tally_of [] Dict.empty.
Proof. split; simpl; try constructor; tauto. Qed.

Lemma incr_counts xs d x :
  NoDup (keys d) ->
  (In x xs -> In x (keys d)) ->
  Forall (fun p => snd p = occurrences (fst p) xs) d ->
  Forall (fun p => snd p = occurrences (fst p) (xs ++ [x])) (Dict.incr d x).
Proof.
  induction d as [|[k' v] d IH]; intros Hnd Hin Hall.
  - unfold Dict.incr. simpl. constructor; [|constructor]. simpl.
    rewrite occurrences_snoc, String.eqb_refl, occurrences_notin; [lia|].
    intros H. exact (Hin H).
  - rewrite incr_cons. inversion Hall as [|? ? Hv Hd]; subst.
    inversion Hnd as [|? ? Hk' Hnd']; subst. simpl in Hv.
    destruct (String.eqb k' x) eqn:E.
    + apply String.eqb_eq in E. subst k'. constructor.
      * simpl. rewrite occurrences_snoc, String.eqb_refl. lia.
      * rewrite Forall_forall in *. intros p Hp.
        rewrite occurrences_snoc, (Hd p Hp).
        destruct (String.eqb x (fst p)) eqn:E'; [|lia].
        apply String.eqb_eq in E'. exfalso. apply Hk'.
        rewrite E'. now apply in_map.
    + constructor.
      * simpl. rewrite occurrences_snoc, String.eqb_sym, E. lia.
      * apply IH; trivial. intros H. destruct (Hin H) as [Heq|]; trivial.
        simpl in Heq. subst k'. now rewrite String.eqb_refl in E.
Qed.

Lemma tally_of_incr xs d x :
  tally_of xs d -> tally_of (xs ++ [x]) (Dict.incr d x).
Proof.
  intros [Hord Hkeys Hcnt].
  assert (Hnd : NoDup (keys d)).
  { apply StronglySorted_irrefl_NoDup with (2 := Hord). intros a. lia. }
  split.
  - rewrite keys_incr. destruct (in_dec string_dec x (keys d)) as [i|n].
    + apply StronglySorted_weaken with (2 := Hord). intros a b Ha Hb.
      rewrite !first_seen_app_In; trivial; now apply Hkeys.
    + apply StronglySorted_snoc.
      * apply StronglySorted_weaken with (2 := Hord). intros a b Ha Hb.
        rewrite !first_seen_app_In; trivial; now apply Hkeys.
      * rewrite Forall_forall. intros a Ha. apply Hkeys in Ha.
        rewrite first_seen_app_In by trivial.
        rewrite first_seen_snoc_new by (now rewrite <- Hkeys).
        now apply first_seen_In.
  - intros a. rewrite keys_incr, in_app_iff. simpl.
    destruct (in_dec string_dec x (keys d)) as [i|n].
    + rewrite Hkeys. split; [tauto|]. intros [H|[<-|[]]]; trivial.
      now apply Hkeys.
    + rewrite in_app_iff, Hkeys. simpl. tauto.
  - apply incr_counts; trivial. apply Hkeys.
Qed.

Lemma tally_of_fold xs : forall pre d,
  tally_of pre d -> tally_of (pre ++ xs) (fold_left Dict.incr xs d).
Proof.
  induction xs as [|x xs IH]; intros pre d H; simpl.
  - now rewrite app_nil_r.
  - replace (pre ++ x :: xs) with ((pre ++ [x]) ++ xs)
      by now rewrite <- app_assoc.
    now apply IH, tally_of_incr.
Qed.

Lemma tally_of_tally xs : tally_of xs (tally xs).
Proof. exact (tally_of_fold xs [] Dict.empty tally_of_nil). Qed.

Lemma StronglySorted_map_inv {A B} (f : A -> B) (R : B -> B -> Prop) l :
  StronglySorted R (map f l) ->
  StronglySorted (fun p q => R (f p) (f q)) l.
Proof.
  induction l as [|a l IH]; simpl; intros H; [constructor|].
  inversion H as [|? ? Hs Hall]; subst. constructor; [now apply IH|].
  rewrite Forall_forall in *. intros b Hb. apply Hall. now apply in_map.
Qed.

Lemma sorted_tally_ranked xs :
  StronglySorted (outranks xs) (map fst (sorted_desc (tally xs))).
Proof.
  destruct (tally_of_tally xs) as [Hord Hkeys Hcnt].
  apply StronglySorted_map.
  apply StronglySorted_map_inv, sorted_desc_stable in Hord.
  apply StronglySorted_weaken with (2 := Hord).
  rewrite Forall_forall in Hcnt. intros p q Hp Hq.
  apply (proj1 (sorted_desc_In _ _)) in Hp, Hq.
  unfold desc_then, outranks. now rewrite <- (Hcnt p Hp), <- (Hcnt q Hq).
Qed.

Lemma sorted_tally_In xs a :
  In a (map fst (sorted_desc (tally xs))) <-> In a xs.
Proof.
  destruct (tally_of_tally xs) as [_ Hkeys _]. rewrite <- Hkeys.
  unfold keys. rewrite !in_map_iff.
  split; intros (p & E & Hp); exists p; split; trivial;
    now apply sorted_desc_In.
Qed.

Lemma top_tally k xs : ranked_top k xs (top k (tally xs)).
Proof.
  unfold top, Dict.items. rewrite <- firstn_map.
  set (L := map fst (sorted_desc (tally xs))).
  pose proof (sorted_tally_ranked xs) as Hs. fold L in Hs.
  split.
  - apply firstn_le_length.
  - now apply StronglySorted_firstn.
  - intros a Ha. apply sorted_tally_In. fold L. now apply In_firstn with k.
  - intros a Ha Hout. apply sorted_tally_In in Ha. fold L in Ha.
    rewrite <- (firstn_skipn k L) in Ha, Hs.
    apply in_app_or in Ha as [Ha|Ha]; [easy|]. split.
    + rewrite length_firstn. apply Nat.min_l.
      destruct (Nat.le_gt_cases k (List.length L)) as [Hle|Hgt]; trivial.
      rewrite skipn_all2 in Ha by lia. easy.
    + rewrite Forall_forall. intros b Hb.
      now apply (StronglySorted_app_cross _ _ _ Hs).
Qed.

Lemma count_meals_from db : forall c,
  fold_left count_meal db c =
  {| Counts.cuisines :=
       fold_left Dict.incr (map cuisine db) (Counts.cuisines c);
     Counts.flavors :=
       fold_left Dict.incr (flat_map flavors db) (Counts.flavors c);
     Counts.ingredients :=
       fold_left Dict.incr (flat_map ingredients db) (Counts.ingredients c);
     Counts.home_count :=
       (Counts.home_count c + List.length (home_meals db))%nat |}.
Proof.
  induction db as [|meal db IH]; intros c; simpl.
  - destruct c; simpl. now rewrite Nat.add_0_r.
  - rewrite IH. simpl. rewrite !fold_left_app. f_equal.
    destruct (String.eqb (meal_type meal) "home"); simpl; lia.
Qed.

Lemma count_meals_tally db :
  count_meals db =
  {| Counts.cuisines := tally (map cuisine db);
     Counts.flavors := tally (flat_map flavors db);
     Counts.ingredients := tally (flat_map ingredients db);
     Counts.home_count := List.length (home_meals db) |}.
Proof. unfold count_meals. now rewrite count_meals_from. Qed.

Lemma get_taste_profile_nonempty db :
  db <> [] ->
  get_taste_profile db =
  {| favorite_cuisines := top 5 (tally (map cuisine db));
     preferred_flavors := top 5 (tally (flat_map flavors db));
     common_ingredients := top 10 (tally (flat_map ingredients db));
     home_vs_outside_ratio :=
       (Z.of_nat (List.length (home_meals db))
        # Pos.of_nat (List.length db))%Q;
     meal_count := List.length db |}.
Proof.
  destruct db as [|m db]; [easy|]. intros _.
  unfold get_taste_profile. now rewrite count_meals_tally.
Qed.

(** C1. For a non-empty store the three lists of the profile hold at most
    5, 5 and 10 names; each is the head of the ranking of the names counted
    (cuisines of the meals, all flavors, all ingredients) by decreasing
    number of occurrences, names with equal counts in order of first
    appearance; a name left out is outranked by every name kept.  When the
    cuisines of the meals are Indian, Indian, Italian, the favorite
    cuisines are Indian followed by Italian. *)
Theorem taste_profile_ranking (db : meals_db) :
  db <> [] ->
  profile_ranked db (get_taste_profile db) /\
  (map cuisine db = ["Indian"; "Indian"; "Italian"] ->
   favorite_cuisines (get_taste_profile db) = ["Indian"; "Italian"]).
Proof.
  intros Hne. rewrite (get_taste_profile_nonempty db Hne).
  unfold profile_ranked. simpl.
  split; [repeat apply conj; apply top_tally|].
  intros ->. reflexivity.
Qed.

Lemma taste_profile_ranking_witness :
  profile_ranked three_meals (get_taste_profile three_meals) /\
  favorite_cuisines (get_taste_profile three_meals) = ["Indian"; "Italian"].
Proof.
  destruct (taste_profile_ranking three_meals) as [H1 H2];
    [discriminate|].
  split; [exact H1 | apply H2; reflexivity].
Defined.

(** C2. On the empty store the profile is the default one. *)
Theorem taste_profile_empty :
  get_taste_profile [] =
  {| favorite_cuisines := [];
     preferred_flavors := [];
     common_ingredients := [];
     home_vs_outside_ratio := (1 # 2)%Q;
     meal_count := 0 |}
  /\ (home_vs_outside_ratio (get_taste_profile []) == 0.5)%Q.
Proof. split; reflexivity. Qed.

Lemma home_meals_all db :
  Forall (fun meal => meal_type meal = "home") db -> home_meals db = db.
Proof.
  induction 1 as [|m db Hm _ IH]; simpl; [reflexivity|].
  now rewrite Hm, IH.
Qed.

Lemma home_meals_none db :
  Forall (fun meal => meal_type meal = "outside") db -> home_meals db = [].
Proof.
  induction 1 as [|m db Hm _ IH]; simpl; [reflexivity|].
  now rewrite Hm, IH.
Qed.

(** C3. For a non-empty store the ratio is the number of meals whose
    [meal_type] is home over the number of meals: 1 when all are home,
    0 when all are outside. *)
Theorem home_ratio (db : meals_db) :
  db <> [] ->
  let ratio := home_vs_outside_ratio (get_taste_profile db) in
  (ratio == inject_Z (Z.of_nat (List.length (home_meals db))) /
            inject_Z (Z.of_nat (List.length db)))%Q /\
  (Forall (fun meal => meal_type meal = "home") db -> (ratio == 1)%Q) /\
  (Forall (fun meal => meal_type meal = "outside") db -> (ratio == 0)%Q).
Proof.
  intros Hne ratio. subst ratio.
  rewrite (get_taste_profile_nonempty db Hne). simpl.
  assert (Hlen : Z.pos (Pos.of_nat (List.length db))
                 = Z.of_nat (List.length db)).
  { destruct db as [|m db]; [easy|]. simpl List.length.
    rewrite Nat2Z.inj_succ, <- Pos.of_nat_succ. lia. }
  repeat split.
  - rewrite Qmake_Qdiv. now rewrite Hlen.
  - intros Hall. rewrite (home_meals_all db Hall).
    unfold Qeq. simpl. lia.
  - intros Hall. now rewrite (home_meals_none db Hall).
Qed.

Lemma home_ratio_witness :
  (home_vs_outside_ratio (get_taste_profile three_meals) ==
   inject_Z (Z.of_nat (List.length (home_meals three_meals))) /
   inject_Z (Z.of_nat (List.length three_meals)))%Q /\
  (home_vs_outside_ratio (get_taste_profile home_only) == 1)%Q /\
  (home_vs_outside_ratio (get_taste_profile outside_only) == 0)%Q.
Proof.
  repeat apply conj.
  - refine (proj1 (home_ratio three_meals _)). discriminate.
  - refine (proj1 (proj2 (home_ratio home_only _)) _); [discriminate|].
    repeat constructor.
  - refine (proj2 (proj2 (home_ratio outside_only _)) _); [discriminate|].
    repeat constructor.
Defined.

(** ** Removing a meal *)

Lemma pop_in_range {A} (l : list A) (i : nat) (x : A) :
  nth_error l i = Some x ->
  pop l (Z.of_nat i) = Some (x, firstn i l ++ skipn (S i) l).
Proof.
  intros H. unfold pop.
  destruct (Z.of_nat i <? 0)%Z eqn:E; [apply Z.ltb_lt in E; lia|].
  rewrite E, Nat2Z.id, H. reflexivity.
Qed.

(** C4. [remove] fails, with the 404 "not found" error, exactly when the
    index is outside [0, length); a failure leaves the store as it was,
    so it always fails on the empty store; otherwise the record at that
    position is taken out of the store and handed back, and [delete_meal]
    reports it by name. *)
Theorem remove_spec (db : meals_db) (index : Z) :
  ((exists f, fst (remove index db) = inl f) <->
   (index < 0 \/ Z.of_nat (List.length db) <= index)%Z) /\
  ((index < 0 \/ Z.of_nat (List.length db) <= index)%Z ->
   remove index db = (inl not_found, db) /\
   delete_meal index db = (inl not_found, db)) /\
  remove index [] = (inl not_found, []) /\
  ((0 <= index < Z.of_nat (List.length db))%Z ->
   exists removed,
     nth_error db (Z.to_nat index) = Some removed /\
     let db' := firstn (Z.to_nat index) db ++ skipn (S (Z.to_nat index)) db in
     remove index db = (inr removed, db') /\
     S (List.length db') = List.length db /\
     delete_meal index db =
       (inr {| DeleteMeal.success := true;
               DeleteMeal.message :=
                 "Removed '" ++ name removed ++ "' from history" |}, db')).
Proof.
  assert (Hout : (index < 0 \/ Z.of_nat (List.length db) <= index)%Z ->
                 remove index db = (inl not_found, db)).
  { intros H. unfold remove.
    destruct ((index <? 0)%Z || (index >=? Z.of_nat (List.length db))%Z)
      eqn:E; [reflexivity|].
    apply orb_false_iff in E as [E1 E2].
    apply Z.ltb_ge in E1. rewrite Z.geb_leb in E2. apply Z.leb_gt in E2. lia. }
  assert (Hin : (0 <= index < Z.of_nat (List.length db))%Z ->
          exists removed,
            nth_error db (Z.to_nat index) = Some removed /\
            remove index db =
              (inr removed,
               firstn (Z.to_nat index) db ++ skipn (S (Z.to_nat index)) db)).
  { intros H. unfold remove.
    destruct ((index <? 0)%Z || (index >=? Z.of_nat (List.length db))%Z)
      eqn:E.
    - apply orb_true_iff in E as [E|E];
        [apply Z.ltb_lt in E | rewrite Z.geb_leb in E; apply Z.leb_le in E];
        lia.
    - destruct (nth_error db (Z.to_nat index)) as [removed|] eqn:Hn.
      + exists removed. split; [reflexivity|].
        rewrite <- (Z2Nat.id index) at 1 by lia.
        now rewrite (pop_in_range _ _ _ Hn).
      + apply nth_error_None in Hn. lia. }
  repeat apply conj.
  - intros [f Hf]. destruct (Z.lt_ge_cases index 0) as [|H0]; [now left|].
    destruct (Z.lt_ge_cases index (Z.of_nat (List.length db))) as [H1|];
      [|now right].
    destruct (Hin (conj H0 H1)) as (removed & _ & E).
    rewrite E in Hf. discriminate.
  - intros H. exists not_found. now rewrite (Hout H).
  - intros H. split; [now apply Hout|].
    unfold delete_meal. now rewrite (Hout H).
  - unfold remove. simpl.
    destruct ((index <? 0)%Z || (index >=? 0)%Z) eqn:E; [reflexivity|].
    apply orb_false_iff in E as [E1 E2].
    apply Z.ltb_ge in E1. rewrite Z.geb_leb in E2. apply Z.leb_gt in E2. lia.
  - intros H. destruct (Hin H) as (removed & Hn & E).
    exists removed. split; [exact Hn|]. cbv zeta. repeat apply conj.
    + exact E.
    + rewrite length_app, length_firstn, length_skipn. lia.
    + unfold delete_meal. now rewrite E.
Qed.

Lemma remove_spec_witness :
  remove 5 three_meals = (inl not_found, three_meals) /\
  exists removed,
    nth_error three_meals 1 = Some removed /\
    fst (remove 1 three_meals) = inr removed.
Proof.
  split.
  - refine (proj1 (proj1 (proj2 (remove_spec three_meals 5)) _)).
    right. simpl. lia.
  - destruct (proj2 (proj2 (proj2 (remove_spec three_meals 1))))
      as (removed & Hn & E & _); [simpl; lia|].
    exists removed. split; [exact Hn | now rewrite E].
Defined.

Lemma length_ok_iff lo hi s :
  length_ok lo hi s = true <-> (lo <= len s <= hi)%nat.
Proof.
  unfold length_ok. rewrite andb_true_iff, !Nat.leb_le. tauto.
Qed.

Lemma meal_type_ok_iff s :
  meal_type_ok s = true <-> s = "home" \/ s = "outside".
Proof.
  unfold meal_type_ok. now rewrite orb_true_iff, !String.eqb_eq.
Qed.

Lemma meal_field_errors_nil i :
  meal_field_errors (in_name i) (in_cuisine i) (in_meal_type i) = [] <->
  valid_meal_input i.
Proof.
  unfold meal_field_errors, valid_meal_input.
  rewrite <- !length_ok_iff, <- meal_type_ok_iff.
  destruct (length_ok 1 200 (in_name i)), (length_ok 1 100 (in_cuisine i)),
    (meal_type_ok (in_meal_type i)); simpl;
    intuition discriminate.
Qed.

Lemma add_meal_valid i now db :
  valid_meal_input i ->
  add_meal i now db =
    (inr {| AddMeal.success := true;
            AddMeal.message :=
              "Added '" ++ in_name i ++ "' to your meal history";
            AddMeal.meal_count := S (List.length db) |},
     db ++ [stored i now]).
Proof.
  intros Hok. apply meal_field_errors_nil in Hok.
  unfold add_meal, Meal_of_input, Meal_init. rewrite Hok. simpl.
  now rewrite length_app, Nat.add_1_r.
Qed.

Lemma post_meals_valid i now db :
  valid_meal_input i -> post_meals i now db = add_meal i now db.
Proof.
  intros Hok. apply meal_field_errors_nil in Hok.
  unfold post_meals, MealInput_init. now rewrite Hok.
Qed.

Lemma add_meal_invalid i now db :
  ~ valid_meal_input i ->
  exists fields, fields <> [] /\
    add_meal i now db =
      (inl (HTTPException HTTP_400_BAD_REQUEST
              (StrOf EmptyString (ValidationError fields))), db) /\
    post_meals i now db =
      (inl (RequestValidationError (ValidationError fields)), db).
Proof.
  intros Hbad.
  exists (meal_field_errors (in_name i) (in_cuisine i) (in_meal_type i)).
  assert (Hne : meal_field_errors (in_name i) (in_cuisine i)
                  (in_meal_type i) <> [])
    by (intros E; now apply Hbad, meal_field_errors_nil).
  split; [exact Hne|].
  unfold post_meals, MealInput_init, add_meal, Meal_of_input, Meal_init.
  destruct (meal_field_errors _ _ _); [easy | split; reflexivity].
Qed.

Lemma valid_meal_input_dec i : valid_meal_input i \/ ~ valid_meal_input i.
Proof.
  destruct (meal_field_errors (in_name i) (in_cuisine i) (in_meal_type i))
    eqn:E.
  - left. now apply meal_field_errors_nil.
  - right. intros H. apply meal_field_errors_nil in H. congruence.
Qed.



Lemma add_calls_from calls : forall db,
  Forall succeeded (fst (add_calls calls db)) ->
  snd (add_calls calls db) =
  db ++ map (fun c => stored (fst c) (snd c)) calls.
Proof.
  induction calls as [|[body now] calls IH]; intros db; simpl.
  - now rewrite app_nil_r.
  - destruct (post_meals body now db) as [r db1] eqn:E1.
    destruct (add_calls calls db1) as [rs db2] eqn:E2. simpl.
    intros Hall. inversion Hall as [|? ? Hr Hrs]; subst.
    specialize (IH db1). rewrite E2 in IH. simpl in IH. rewrite (IH Hrs).
    destruct (valid_meal_input_dec body) as [Hv|Hv].
    + rewrite (post_meals_valid _ _ _ Hv), (add_meal_valid _ _ _ Hv) in E1.
      inversion E1; subst. now rewrite <- app_assoc.
    + destruct (add_meal_invalid body now db Hv) as (fields & _ & _ & E).
      rewrite E in E1. inversion E1; subst. destruct Hr.
Qed.

Lemma meal_count_length db :
  meal_count (get_taste_profile db) = List.length db.
Proof. now destruct db. Qed.

(** C6. After any sequence of successful additions to the empty store,
    listing the meals gives the added records in the order of the calls,
    and the profile counts as many meals as there were calls. *)
Theorem add_calls_in_order (calls : list (MealInput * datetime)) :
  Forall succeeded (fst (add_calls calls [])) ->
  let db := snd (add_calls calls []) in
  GetMeals.meals (get_meals db) =
    map (fun c => stored (fst c) (snd c)) calls /\
  GetMeals.count (get_meals db) = List.length calls /\
  meal_count (get_taste_profile db) = List.length calls.
Proof.
  intros Hall db. subst db.
  rewrite meal_count_length, (add_calls_from calls [] Hall).
  unfold get_meals. simpl. rewrite map_id, length_map. auto.
Qed.

Lemma add_calls_in_order_witness :
  GetMeals.meals (get_meals (snd (add_calls [(dal, 1%Z); (pasta, 2%Z)] []))) =
    [stored dal 1%Z; stored pasta 2%Z] /\
  meal_count (get_taste_profile
                (snd (add_calls [(dal, 1%Z); (pasta, 2%Z)] []))) = 2%nat.
Proof.
  destruct (add_calls_in_order [(dal, 1%Z); (pasta, 2%Z)]) as (H1 & _ & H2).
  - simpl. repeat constructor.
  - split; [exact H1 | exact H2].
Defined.

(** C7 as worded does not hold: a request that gives a cooking time of 0
    gets no cooking-time clause, where the wording promises
    "Maximum cooking time: 0 minutes". *)
Lemma request_prompt_zero_minutes :
  request_prompt zero_minutes =
    "Create a unique fusion recipe for me. Difficulty level: medium" /\
  String.concat " " (claimed_clauses zero_minutes) =
    ("Create a unique fusion recipe for me. Difficulty level: medium" ++
     " Maximum cooking time: 0 minutes")%string /\
  request_prompt zero_minutes <>
    String.concat " " (claimed_clauses zero_minutes).
Proof. repeat split. discriminate. Qed.

(** C7, with the truth tests of the handler.  The prompt is the clauses
    joined by single spaces, in this order: the base instruction; the
    style clause when a non-empty style is given; the restrictions clause,
    comma-joined, when the list is not empty; the difficulty clause; the
    cooking-time clause when a time other than 0 is given.  It is the
    prompt of the specification for
    every request whose style is not the empty string and whose time is
    not 0.  With difficulty medium and nothing else it is the base
    instruction followed by the medium-difficulty clause. *)
Theorem request_prompt_spec (r : FusionRequest) :
  request_prompt r = String.concat " " (request_clauses r) /\
  (fusion_style r <> Some EmptyString -> cooking_time r <> Some 0%Z ->
   request_prompt r = String.concat " " (claimed_clauses r)) /\
  (fusion_style r = None -> dietary_restrictions r = [] ->
   difficulty r = "medium" -> cooking_time r = None ->
   request_prompt r =
     "Create a unique fusion recipe for me. Difficulty level: medium").
Proof.
  assert (H : request_prompt r = String.concat " " (request_clauses r)).
  { unfold request_prompt, request_clauses, style_given, time_given,
      restrictions_clause.
    destruct r as [[[|c s]|] [|x rs] d [[|t|t]|]]; reflexivity. }
  split; [exact H|]. split.
  - intros Hs Ht. rewrite H. unfold request_clauses, claimed_clauses,
      style_given, time_given.
    destruct (fusion_style r) as [[|c s]|]; [easy| |];
      destruct (cooking_time r) as [[|t|t]|]; easy.
  - destruct r as [s rs d t]. simpl. intros -> -> -> ->. reflexivity.
Qed.

Lemma request_prompt_spec_witness :
  request_prompt plain_medium =
    String.concat " " (claimed_clauses plain_medium) /\
  request_prompt plain_medium =
    "Create a unique fusion recipe for me. Difficulty level: medium".
Proof.
  destruct (request_prompt_spec plain_medium) as (_ & H1 & H2).
  split; [apply H1; discriminate | apply H2; reflexivity].
Defined.

(** ** The weekly menu *)

Section AgentFacts.

Variable World : Type.
Variable run :
string -> UserPreferences -> World -> (Exception + FusionRecipe) * World.

Lemma served_days prefs ds w menu w' :
served World run prefs ds w menu w' -> map WeeklyMenu.day menu = ds.
Proof. induction 1; simpl; congruence. Qed.

Lemma weekly_loop_served prefs ds : forall acc w out w',
weekly_loop World run ds prefs acc w = (inr out, w') <->
exists menu, out = acc ++ menu /\ served World run prefs ds w menu w'.
Proof.
induction ds as [|day ds IH]; intros acc w out w'; simpl.
- split.
  + intros E. inversion E; subst. exists []. rewrite app_nil_r.
    split; [reflexivity | constructor].
  + intros (menu & -> & Hs). inversion Hs; subst. now rewrite app_nil_r.
- destruct (run (day_prompt day) prefs w) as [[e|data] w1] eqn:Er.
  + split; [discriminate|]. intros (menu & _ & Hs).
    inversion Hs; subst. congruence.
  + rewrite IH. split.
    * intros (menu & -> & Hs).
      exists (WeeklyMenu.mkEntry day data :: menu).
      rewrite <- app_assoc. split; [reflexivity|].
      now apply served_cons with w1.
    * intros (menu & -> & Hs). inversion Hs; subst.
      assert (data0 = data /\ w2 = w1) as [-> ->]
        by (split; congruence).
      eexists. rewrite <- app_assoc. split; [reflexivity | eassumption].
Qed.

Lemma weekly_loop_fails prefs ds : forall acc w e w',
weekly_loop World run ds prefs acc w = (inl e, w') <->
fails World run prefs ds w e w'.
Proof.
induction ds as [|day ds IH]; intros acc w e w'; simpl.
- split; [discriminate|].
  intros (done & d & rest & menu & w1 & E & _). now destruct done.
- destruct (run (day_prompt day) prefs w) as [[e0|data] w1] eqn:Er.
  + split.
    * intros E. inversion E; subst.
      exists [], day, ds, [], w. repeat split; trivial. constructor.
    * intros (done & d & rest & menu & w2 & E & Hs & Hr).
      destruct done as [|d0 done]; simpl in E; inversion E; subst.
      -- inversion Hs; subst. congruence.
      -- inversion Hs; subst. congruence.
  + rewrite IH. split.
    * intros (done & d & rest & menu & w2 & -> & Hs & Hr).
      exists (day :: done), d, rest,
        (WeeklyMenu.mkEntry day data :: menu), w2.
      repeat split; trivial. now apply served_cons with w1.
    * intros (done & d & rest & menu & w2 & E & Hs & Hr).
      destruct done as [|d0 done]; simpl in E; inversion E; subst.
      -- inversion Hs; subst. congruence.
      -- inversion Hs; subst.
         assert (data0 = data /\ w3 = w1) as [-> ->]
           by (split; congruence).
         exists done, d, rest, menu0, w2. repeat split; trivial.
Qed.

Lemma weekly_loop_total prefs ds : forall w,
(exists menu w', served World run prefs ds w menu w') \/
(exists e w', fails World run prefs ds w e w').
Proof.
intros w.
destruct (weekly_loop World run ds prefs [] w) as [[e|out] w'] eqn:E.
- right. exists e, w'. now apply (weekly_loop_fails prefs ds [] w).
- left. apply weekly_loop_served in E as (menu & _ & Hs). now exists menu, w'.
Qed.

End AgentFacts.

(** C8. [generate_weekly_menu] builds the preferences, and with them the
    taste profile, once, from the store as it finds it, and asks the agent
    for Monday to Sunday in that order, always with these preferences.  It
    succeeds exactly when all seven calls give a recipe, and its menu then
    has one entry per day, in order; it fails with the 500 error exactly
    when some call raises, and then returns no menu at all; one of the two
    happens. *)
Theorem weekly_menu_spec (World : Type)
    (run : string -> UserPreferences -> World
           -> (Exception + FusionRecipe) * World)
    (db : meals_db) (w : World) :
  let prefs := mkUserPreferences db (get_taste_profile db) in
  (forall menu w',
     generate_weekly_menu World run db w =
       (inr {| WeeklyMenu.success := true;
               WeeklyMenu.weekly_menu := menu |}, w') <->
     served World run prefs days w menu w') /\
  (forall e w',
     generate_weekly_menu World run db w =
       (inl (HTTPException HTTP_500_INTERNAL_SERVER_ERROR
               (StrOf "Failed to generate weekly menu: " e)), w') <->
     fails World run prefs days w e w') /\
  (forall menu w',
     served World run prefs days w menu w' ->
     map WeeklyMenu.day menu =
       ["Monday"; "Tuesday"; "Wednesday"; "Thursday"; "Friday"; "Saturday";
        "Sunday"]) /\
  ((exists menu w', served World run prefs days w menu w') \/
   (exists e w', fails World run prefs days w e w')).
Proof.
  intros prefs. repeat apply conj.
  - intros menu w'. unfold generate_weekly_menu. fold prefs.
    rewrite <- (app_nil_l menu) at 2.
    destruct (weekly_loop World run days prefs [] w) as [[e|out] w1] eqn:E.
    + split; [discriminate|]. intros Hs.
      assert (E' : weekly_loop World run days prefs [] w = (inr menu, w'))
        by (apply weekly_loop_served; now exists menu).
      congruence.
    + split.
      * intros H. inversion H; subst.
        apply weekly_loop_served in E as (m & -> & Hs). exact Hs.
      * intros Hs.
        assert (E' : weekly_loop World run days prefs [] w = (inr menu, w'))
          by (apply weekly_loop_served; now exists menu).
        congruence.
  - intros e w'. unfold generate_weekly_menu. fold prefs.
    rewrite <- (weekly_loop_fails World run prefs days [] w e w').
    destruct (weekly_loop World run days prefs [] w) as [[e1|out] w1];
      split; intros H; inversion H; subst; reflexivity.
  - intros menu w' Hs. exact (served_days _ _ _ _ _ _ _ Hs).
  - apply weekly_loop_total.
Qed.

Lemma weekly_menu_spec_witness :
  (exists menu,
     generate_weekly_menu nat (counting_agent 9) three_meals 0 =
       (inr {| WeeklyMenu.success := true;
               WeeklyMenu.weekly_menu := menu |}, 7%nat) /\
     map WeeklyMenu.day menu = days) /\
  fails nat (counting_agent 3)
    (mkUserPreferences three_meals (get_taste_profile three_meals))
    days 0%nat (AgentError "quota exceeded") 4%nat.
Proof.
  destruct (weekly_menu_spec nat (counting_agent 9) three_meals 0%nat)
    as (Hok & _ & Hdays & _).
  destruct (weekly_menu_spec nat (counting_agent 3) three_meals 0%nat)
    as (_ & Hfail & _ & _).
  split.
  - eexists. split; [reflexivity|]. eapply Hdays, Hok. reflexivity.
  - apply Hfail. reflexivity.
Defined.

Lemma stamped_length inputs clock : forall k,
  List.length (stamped inputs clock k) = List.length inputs.
Proof. induction inputs; intros k; simpl; auto. Qed.

Lemma init_all_valid inputs :
  Forall valid_meal_input inputs -> init_all inputs = inr inputs.
Proof.
  induction 1 as [|i inputs Hi _ IH]; simpl; [reflexivity|].
  unfold MealInput_init.
  apply meal_field_errors_nil in Hi. now rewrite Hi, IH.
Qed.

Lemma load_loop_valid inputs clock :
  Forall valid_meal_input inputs ->
  forall k db,
    load_loop inputs clock k db = (inr tt, db ++ stamped inputs clock k).
Proof.
  induction 1 as [|i inputs Hi _ IH]; intros k db; simpl.
  - now rewrite app_nil_r.
  - unfold Meal_of_input, Meal_init.
    apply meal_field_errors_nil in Hi. rewrite Hi, IH.
    now rewrite <- app_assoc.
Qed.

Lemma sample_fields_valid : Forall valid_meal_input sample_fields.
Proof.
  unfold sample_fields.
  repeat (apply Forall_cons;
          [apply meal_field_errors_nil; vm_compute; reflexivity|]).
  apply Forall_nil.
Qed.

Lemma load_sample_data_eq clock db :
  load_sample_data clock db =
  (inr {| LoadSample.success := true;
          LoadSample.message := "Loaded 8 sample meals";
          LoadSample.total_meals := List.length db + 8 |},
   db ++ stamped sample_fields clock 0).
Proof.
  unfold load_sample_data.
  rewrite (init_all_valid _ sample_fields_valid).
  rewrite (load_loop_valid _ clock sample_fields_valid).
  now rewrite length_app, stamped_length.
Qed.

(** C9. Loading the samples into the empty store and computing the profile
    gives 8 meals, a home ratio of 3/8 = 0.375, and Indian, which occurs 3
    times, as the first favorite cuisine. *)
Theorem sample_profile (clock : nat -> datetime) :
  let db := snd (load_sample_data clock []) in
  let profile := get_taste_profile db in
  succeeded (fst (load_sample_data clock [])) /\
  List.length db = 8%nat /\
  meal_count profile = 8%nat /\
  home_vs_outside_ratio profile = (3 # 8)%Q /\
  (home_vs_outside_ratio profile == 0.375)%Q /\
  hd_error (favorite_cuisines profile) = Some "Indian" /\
  occurrences "Indian" (map cuisine db) = 3%nat.
Proof.
  rewrite load_sample_data_eq. simpl snd. simpl fst.
  repeat split.
Qed.

(** C10. [load_sample_data] adds its 8 meals after the meals already in the
    store: the store grows by 8, its former content is the prefix of the
    new one, and [total_meals] is the new size. *)
Theorem load_sample_data_appends (clock : nat -> datetime) (db : meals_db) :
  let db' := snd (load_sample_data clock db) in
  db' = db ++ stamped sample_fields clock 0 /\
  List.length db' = (List.length db + 8)%nat /\
  firstn (List.length db) db' = db /\
  exists r,
    fst (load_sample_data clock db) = inr r /\
    LoadSample.total_meals r = (List.length db + 8)%nat.
Proof.
  rewrite load_sample_data_eq. simpl snd. simpl fst.
  repeat apply conj.
  - reflexivity.
  - rewrite length_app. reflexivity.
  - rewrite firstn_app, Nat.sub_diag, firstn_all. simpl.
    now rewrite app_nil_r.
  - eexists. split; reflexivity.
Qed.

(** * Further properties *)

(** ** What the counting loop counts *)

Lemma tally_get xs d a :
  tally_of xs d -> Dict.get d a 0 = occurrences a xs.
Proof.
  intros [Hord Hkeys Hcnt].
  destruct (in_dec string_dec a xs) as [Hin|Hout].
  - apply Hkeys in Hin. clear Hkeys Hord.
    induction d as [|[k v] d IH]; [easy|].
    inversion Hcnt as [|? ? Hv Hd]; subst. simpl in *.
    destruct (String.eqb k a) eqn:E.
    + apply String.eqb_eq in E. now subst.
    + apply String.eqb_neq in E. destruct Hin as [|Hin]; [easy|].
      now apply IH.
  - rewrite (occurrences_notin _ _ Hout).
    assert (Hk : ~ In a (keys d)) by now rewrite Hkeys.
    clear Hkeys Hord Hcnt Hout.
    induction d as [|[k v] d IH]; [easy|]. simpl in *.
    destruct (String.eqb k a) eqn:E.
    + apply String.eqb_eq in E. tauto.
    + apply IH. tauto.
Qed.

Lemma occurrences_map_cuisine c db :
  occurrences c (map cuisine db) =
  List.length (filter (fun m => String.eqb (cuisine m) c) db).
Proof.
  unfold occurrences. induction db as [|m db IH]; simpl; [reflexivity|].
  destruct (string_dec (cuisine m) c) as [E|E].
  - apply String.eqb_eq in E. rewrite E. simpl. now rewrite IH.
  - apply String.eqb_neq in E. now rewrite E.
Qed.

Lemma occurrences_flat_map {A} (f : A -> list string) a l :
  occurrences a (flat_map f l) =
  list_sum (map (fun x => occurrences a (f x)) l).
Proof.
  unfold occurrences. induction l as [|x l IH]; simpl; [reflexivity|].
  now rewrite count_occ_app, IH.
Qed.

(** X1. After the counting loop, the cuisine counter of a name is the
    number of meals of that cuisine; the flavor and ingredient counters of
    a name add up its occurrences in the lists of all meals, repeats within
    one meal included; a name never seen reads as 0 through [get]; and
    [home_count] is the number of meals whose type is home. *)
Theorem count_meals_counts (db : meals_db) (a : string) :
  let c := count_meals db in
  Dict.get (Counts.cuisines c) a 0 =
    List.length (filter (fun m => String.eqb (cuisine m) a) db) /\
  Dict.get (Counts.flavors c) a 0 =
    list_sum (map (fun m => occurrences a (flavors m)) db) /\
  Dict.get (Counts.ingredients c) a 0 =
    list_sum (map (fun m => occurrences a (ingredients m)) db) /\
  Counts.home_count c = List.length (home_meals db).
Proof.
  cbv zeta. rewrite count_meals_tally. simpl.
  rewrite !(tally_get _ _ _ (tally_of_tally _)).
  rewrite occurrences_map_cuisine, !occurrences_flat_map. auto.
Qed.

(** ** More on the ranking *)

Lemma outranks_le xs a b :
  outranks xs a b -> (occurrences b xs <= occurrences a xs)%nat.
Proof. unfold outranks. lia. Qed.

Lemma outranks_irrefl xs a : ~ outranks xs a a.
Proof. unfold outranks. lia. Qed.

Lemma ranked_top_head k xs out :
  (0 < k)%nat -> xs <> [] -> ranked_top k xs out ->
  exists a rest,
    out = a :: rest /\
    forall b, In b xs -> (occurrences b xs <= occurrences a xs)%nat.
Proof.
  intros Hk Hxs [Hlen Hs Hincl Hbest].
  destruct out as [|a rest].
  - destruct xs as [|x xs]; [easy|].
    destruct (Hbest x) as [E _]; [now left | easy | simpl in E; lia].
  - exists a, rest. split; [reflexivity|]. intros b Hb.
    destruct (in_dec string_dec b (a :: rest)) as [[<-|Hin]|Hout].
    + lia.
    + inversion Hs as [|? ? _ Hall]; subst.
      rewrite Forall_forall in Hall. now apply outranks_le, Hall.
    + destruct (Hbest b Hb Hout) as [_ Hall].
      inversion Hall; subst. now apply outranks_le.
Qed.

Lemma ranked_top_NoDup k xs out : ranked_top k xs out -> NoDup out.
Proof.
  intros [_ Hs _ _].
  apply StronglySorted_irrefl_NoDup with (2 := Hs). apply outranks_irrefl.
Qed.

(** X2. For a non-empty store the list of favorite cuisines is not empty
    and names no cuisine twice, and no cuisine of the store belongs to more
    meals than its first entry. *)
Theorem favorite_cuisine_most_frequent (db : meals_db) :
  db <> [] ->
  exists c rest,
    favorite_cuisines (get_taste_profile db) = c :: rest /\
    NoDup (c :: rest) /\
    forall m, In m db ->
      (List.length (filter (fun x => String.eqb (cuisine x) (cuisine m)) db)
       <= List.length (filter (fun x => String.eqb (cuisine x) c) db))%nat.
Proof.
  intros Hne. rewrite (get_taste_profile_nonempty db Hne). simpl.
  pose proof (top_tally 5 (map cuisine db)) as Hr.
  assert (Hxs : map cuisine db <> [])
    by (destruct db; [easy | discriminate]).
  destruct (ranked_top_head 5 (map cuisine db) _ (Nat.lt_0_succ 4) Hxs Hr)
    as (c & rest & E & Hmax).
  exists c, rest. split; [exact E|]. split.
    + rewrite <- E. exact (ranked_top_NoDup _ _ _ Hr).
    + intros m Hm. rewrite <- !occurrences_map_cuisine.
      apply Hmax. now apply in_map.
Qed.

Lemma favorite_cuisine_most_frequent_witness :
  exists c rest,
    favorite_cuisines (get_taste_profile three_meals) = c :: rest /\
    NoDup (c :: rest).
Proof.
  destruct (favorite_cuisine_most_frequent three_meals)
    as (c & rest & E & Hnd & _); [discriminate|].
  exists c, rest. now split.
Defined.

Lemma top_length_distinct k xs :
  List.length (top k (tally xs)) =
  Nat.min k (List.length (nodup string_dec xs)).
Proof.
  unfold top, Dict.items. rewrite length_map, length_firstn.
  rewrite (Permutation_length (sorted_desc_perm _)). f_equal.
  destruct (tally_of_tally xs) as [Hord Hkeys _].
  replace (List.length (tally xs)) with (List.length (keys (tally xs)))
    by apply length_map.
  apply Permutation_length, NoDup_Permutation.
  - apply StronglySorted_irrefl_NoDup with (2 := Hord). intros a. lia.
  - apply NoDup_nodup.
  - intros a. now rewrite Hkeys, nodup_In.
Qed.

(** X3. For a non-empty store each list of the profile is as long as its
    bound allows: 5, 5 and 10, or the number of distinct names counted when
    there are fewer. *)
Theorem profile_lengths (db : meals_db) :
  db <> [] ->
  let p := get_taste_profile db in
  List.length (favorite_cuisines p) =
    Nat.min 5 (List.length (nodup string_dec (map cuisine db))) /\
  List.length (preferred_flavors p) =
    Nat.min 5 (List.length (nodup string_dec (flat_map flavors db))) /\
  List.length (common_ingredients p) =
    Nat.min 10 (List.length (nodup string_dec (flat_map ingredients db))).
Proof.
  intros Hne. cbv zeta. rewrite (get_taste_profile_nonempty db Hne). simpl.
  now rewrite !top_length_distinct.
Qed.

Lemma profile_lengths_witness :
  List.length (favorite_cuisines (get_taste_profile three_meals)) = 2%nat.
Proof.
  destruct (profile_lengths three_meals) as (E & _); [discriminate|].
  exact E.
Defined.

(** ** The home ratio *)

Lemma home_meals_le db : (List.length (home_meals db) <= List.length db)%nat.
Proof. unfold home_meals. apply filter_length_le. Qed.

Lemma pos_of_length {A} (l : list A) :
  l <> [] -> Z.pos (Pos.of_nat (List.length l)) = Z.of_nat (List.length l).
Proof.
  destruct l as [|x l]; [easy|]. intros _. simpl List.length.
  rewrite Nat2Z.inj_succ, <- Pos.of_nat_succ. lia.
Qed.

(** X4. Whatever the store, the home ratio lies between 0 and 1. *)
Theorem ratio_bounds (db : meals_db) :
  (0 <= home_vs_outside_ratio (get_taste_profile db) <= 1)%Q.
Proof.
  destruct db as [|m db]; [split; discriminate|].
  rewrite get_taste_profile_nonempty by discriminate.
  cbn [home_vs_outside_ratio].
  pose proof (home_meals_le (m :: db)) as Hle.
  pose proof (pos_of_length (m :: db)) as Hpos.
  unfold Qle. cbn [Qnum Qden]. split; [lia|].
  rewrite Z.mul_1_r, Z.mul_1_l, Hpos by discriminate. lia.
Qed.

Lemma home_outside_partition db :
  Forall valid_meal db ->
  (List.length (home_meals db) + List.length (outside_meals db))%nat
  = List.length db.
Proof.
  induction 1 as [|m db [[E|E] _] _ IH]; simpl; [reflexivity| |];
    rewrite E; simpl; lia.
Qed.

(** X5. In a non-empty store whose meals all satisfy the [Meal] model,
    every meal is home or outside, so the home ratio and the share of
    outside meals add up to 1. *)
Theorem ratio_complement (db : meals_db) :
  db <> [] -> Forall valid_meal db ->
  (home_vs_outside_ratio (get_taste_profile db) +
   inject_Z (Z.of_nat (List.length (outside_meals db))) /
   inject_Z (Z.of_nat (List.length db)) == 1)%Q.
Proof.
  intros Hne Hv. rewrite (get_taste_profile_nonempty db Hne).
  cbn [home_vs_outside_ratio].
  pose proof (home_outside_partition db Hv) as Hp.
  rewrite Qmake_Qdiv, (pos_of_length db Hne).
  assert (Hn : ~ (inject_Z (Z.of_nat (List.length db)) == 0)%Q).
  { unfold Qeq. simpl. destruct db; [easy|]. simpl List.length. lia. }
  assert (EN : (inject_Z (Z.of_nat (List.length db)) ==
                inject_Z (Z.of_nat (List.length (home_meals db))) +
                inject_Z (Z.of_nat (List.length (outside_meals db))))%Q).
  { now rewrite <- inject_Z_plus, <- Nat2Z.inj_add, Hp. }
  rewrite EN in Hn |- *. now field.
Qed.

Lemma three_meals_valid : Forall valid_meal three_meals.
Proof.
  repeat (apply Forall_cons;
          [unfold valid_meal; simpl; split; [tauto | lia]|]).
  apply Forall_nil.
Qed.

Lemma ratio_complement_witness :
  (home_vs_outside_ratio (get_taste_profile three_meals) +
   inject_Z (Z.of_nat (List.length (outside_meals three_meals))) /
   inject_Z (Z.of_nat (List.length three_meals)) == 1)%Q.
Proof.
  apply ratio_complement; [discriminate | exact three_meals_valid].
Defined.

(** ** What the profile depends on *)

Lemma home_meals_taste db :
  List.length (home_meals db) =
  List.length (filter (fun t => String.eqb (snd t) "home") (map taste db)).
Proof.
  unfold home_meals. induction db as [|m db IH]; simpl; [reflexivity|].
  destruct (String.eqb (meal_type m) "home"); simpl; now rewrite IH.
Qed.

(** X6. The profile reads only the cuisine, the flavors, the ingredients
    and the type of each meal: two stores that agree on these, meal by
    meal, have the same profile, whatever the names, restaurants, notes
    and timestamps. *)
Theorem profile_reads_taste_only (db db' : meals_db) :
  map taste db = map taste db' ->
  get_taste_profile db = get_taste_profile db'.
Proof.
  intros E.
  assert (Hc : map cuisine db = map cuisine db').
  { replace cuisine with (fun m => fst (fst (fst (taste m)))) by reflexivity.
    now rewrite <- !(map_map taste (fun t => fst (fst (fst t)))), E. }
  assert (Hf : flat_map flavors db = flat_map flavors db').
  { rewrite !flat_map_concat_map.
    replace flavors with (fun m => snd (fst (fst (taste m)))) by reflexivity.
    now rewrite <- !(map_map taste (fun t => snd (fst (fst t)))), E. }
  assert (Hi : flat_map ingredients db = flat_map ingredients db').
  { rewrite !flat_map_concat_map.
    replace ingredients with (fun m => snd (fst (taste m))) by reflexivity.
    now rewrite <- !(map_map taste (fun t => snd (fst t))), E. }
  assert (Hl : List.length db = List.length db')
    by (rewrite <- (length_map taste db), E; apply length_map).
  destruct db as [|m db], db' as [|m' db']; try discriminate; trivial.
  rewrite !get_taste_profile_nonempty by discriminate.
  now rewrite Hc, Hf, Hi, Hl, !home_meals_taste, E.
Qed.

Lemma profile_reads_taste_only_witness :
  get_taste_profile three_meals = get_taste_profile renamed_meals.
Proof. apply profile_reads_taste_only. reflexivity. Defined.

Lemma occurrences_perm a xs ys :
  Permutation xs ys -> occurrences a xs = occurrences a ys.
Proof.
  unfold occurrences.
  induction 1 as [|x xs ys _ IH|x y xs|xs ys zs _ IH1 _ IH2]; simpl.
  - reflexivity.
  - now rewrite IH.
  - destruct (string_dec y a), (string_dec x a); reflexivity.
  - now rewrite IH1.
Qed.

Lemma filter_length_perm {A} (f : A -> bool) l l' :
  Permutation l l' -> List.length (filter f l) = List.length (filter f l').
Proof.
  induction 1 as [|x l l' _ IH|x y l|l1 l2 l3 _ IH1 _ IH2]; simpl.
  - reflexivity.
  - destruct (f x); simpl; now rewrite IH.
  - destruct (f x), (f y); reflexivity.
  - now rewrite IH1.
Qed.

(** X7. The order of the meals in the store matters to the profile only
    through ties: two stores holding the same meals in different orders
    have the same meal count, the same home ratio and the same counters. *)
Theorem profile_counts_order_free (db db' : meals_db) :
  Permutation db db' ->
  meal_count (get_taste_profile db) = meal_count (get_taste_profile db') /\
  home_vs_outside_ratio (get_taste_profile db) =
    home_vs_outside_ratio (get_taste_profile db') /\
  forall a,
    Dict.get (Counts.cuisines (count_meals db)) a 0 =
      Dict.get (Counts.cuisines (count_meals db')) a 0 /\
    Dict.get (Counts.flavors (count_meals db)) a 0 =
      Dict.get (Counts.flavors (count_meals db')) a 0 /\
    Dict.get (Counts.ingredients (count_meals db)) a 0 =
      Dict.get (Counts.ingredients (count_meals db')) a 0.
Proof.
  intros Hp.
  pose proof (Permutation_length Hp) as Hl.
  assert (Hh : List.length (home_meals db) = List.length (home_meals db'))
    by now apply filter_length_perm.
  repeat apply conj.
  - now rewrite !meal_count_length.
  - destruct db as [|m db], db' as [|m' db']; try discriminate; trivial.
    rewrite !get_taste_profile_nonempty by discriminate.
    cbn [home_vs_outside_ratio]. now rewrite Hh, Hl.
  - intros a. rewrite !count_meals_tally. simpl.
    rewrite !(tally_get _ _ _ (tally_of_tally _)).
    repeat apply conj; apply occurrences_perm.
    + now apply Permutation_map.
    + now apply Permutation_flat_map.
    + now apply Permutation_flat_map.
Qed.

Lemma profile_counts_order_free_witness :
  meal_count (get_taste_profile three_meals) =
    meal_count (get_taste_profile reordered_meals) /\
  home_vs_outside_ratio (get_taste_profile three_meals) =
    home_vs_outside_ratio (get_taste_profile reordered_meals).
Proof.
  destruct (profile_counts_order_free three_meals reordered_meals)
    as (H1 & H2 & _).
  - unfold three_meals, reordered_meals.
    eapply perm_trans; [apply perm_skip, perm_swap | ].
    eapply perm_trans; [apply perm_swap | ]. apply Permutation_refl.
  - now split.
Defined.

(** ** The store under request traces *)

Lemma remove_in_range (db : meals_db) (i : nat) (m : Meal) :
  nth_error db i = Some m ->
  remove (Z.of_nat i) db = (inr m, firstn i db ++ skipn (S i) db).
Proof.
  intros Hn. unfold remove.
  assert (Hi : (i < List.length db)%nat)
    by (apply nth_error_Some; congruence).
  destruct ((Z.of_nat i <? 0)%Z || (Z.of_nat i >=? Z.of_nat (List.length db))%Z)
    eqn:E.
  - apply orb_true_iff in E as [E|E];
      [apply Z.ltb_lt in E | rewrite Z.geb_leb in E; apply Z.leb_le in E];
      lia.
  - now rewrite (pop_in_range _ _ _ Hn).
Qed.

Lemma delete_meal_store (index : Z) (db : meals_db) :
  snd (delete_meal index db) = db \/
  exists i, (i < List.length db)%nat /\ index = Z.of_nat i /\
    snd (delete_meal index db) = firstn i db ++ skipn (S i) db.
Proof.
  destruct (Z.lt_ge_cases index 0) as [Hneg|H0].
  - left. unfold delete_meal, remove.
    apply Z.ltb_lt in Hneg. now rewrite Hneg.
  - destruct (nth_error db (Z.to_nat index)) as [m|] eqn:Hn.
    + right. exists (Z.to_nat index).
      assert (Hi : (Z.to_nat index < List.length db)%nat)
        by (apply nth_error_Some; congruence).
      repeat split; [exact Hi | lia |].
      unfold delete_meal.
      rewrite <- (Z2Nat.id index) at 1 by lia.
      now rewrite (remove_in_range _ _ _ Hn).
    + left. apply nth_error_None in Hn. unfold delete_meal, remove.
      assert (E : (index >=? Z.of_nat (List.length db))%Z = true)
        by (rewrite Z.geb_leb; apply Z.leb_le; lia).
      rewrite E, orb_true_r. reflexivity.
Qed.

Lemma Forall_firstn_skipn {A} (P : A -> Prop) (i : nat) (l : list A) :
  Forall P l -> Forall P (firstn i l ++ skipn (S i) l).
Proof.
  intros H. rewrite Forall_forall in *. intros x Hx. apply H.
  apply in_app_or in Hx as [Hx|Hx].
  - now apply In_firstn with i.
  - rewrite <- (firstn_skipn (S i) l). apply in_or_app. now right.
Qed.

Lemma valid_stored i now : valid_meal_input i -> valid_meal (stored i now).
Proof. intros H. exact H. Qed.

Lemma stamped_valid inputs clock : forall k,
  Forall valid_meal_input inputs -> Forall valid_meal (stamped inputs clock k).
Proof.
  intros k H. revert k.
  induction H as [|i inputs Hi _ IH]; intros k; simpl; constructor; auto.
Qed.

Lemma serve_valid (db : meals_db) (r : Request) :
  Forall valid_meal db -> Forall valid_meal (serve db r).
Proof.
  intros Hv. destruct r as [body now|index|clock]; unfold serve.
  - destruct (valid_meal_input_dec body) as [Hb|Hb].
    + rewrite (post_meals_valid _ _ _ Hb), (add_meal_valid _ _ _ Hb). simpl.
      apply Forall_app. split; [exact Hv|]. constructor; [|constructor].
      now apply valid_stored.
    + destruct (add_meal_invalid body now db Hb) as (fields & _ & _ & E).
      now rewrite E.
  - destruct (delete_meal_store index db) as [E|(i & _ & _ & E)];
      rewrite E; [exact Hv | now apply Forall_firstn_skipn].
  - rewrite load_sample_data_eq. cbn [snd].
    apply Forall_app. split; [exact Hv|].
    apply stamped_valid, sample_fields_valid.
Qed.

(** X8. Every record of a store reached from the empty store by adding,
    deleting and loading the samples, in any order and with any arguments,
    satisfies the constraints of the [Meal] model: its type is home or
    outside, its name has 1 to 200 characters and its cuisine 1 to 100. *)
Theorem reachable_store_valid (rs : list Request) :
  Forall valid_meal (serve_all rs []).
Proof.
  unfold serve_all.
  assert (H : forall db, Forall valid_meal db ->
                         Forall valid_meal (fold_left serve rs db)).
  { induction rs as [|r rs IH]; intros db Hv; simpl; [exact Hv|].
    now apply IH, serve_valid. }
  apply H. constructor.
Qed.

(** X9. Adding a valid meal and then deleting the last position undoes the
    addition: the deletion succeeds, names the meal just added, and leaves
    the store exactly as it was before. *)
Theorem add_then_delete (i : MealInput) (now : datetime) (db : meals_db) :
  valid_meal_input i ->
  delete_meal (Z.of_nat (List.length db)) (snd (add_meal i now db)) =
    (inr {| DeleteMeal.success := true;
            DeleteMeal.message :=
              "Removed '" ++ in_name i ++ "' from history" |}, db).
Proof.
  intros Hv. rewrite (add_meal_valid _ _ _ Hv). cbn [snd].
  unfold delete_meal.
  rewrite (remove_in_range _ _ (stored i now)).
  - rewrite firstn_app, Nat.sub_diag, firstn_all.
    rewrite skipn_all2 by (rewrite length_app; simpl; lia).
    simpl. now rewrite !app_nil_r.
  - rewrite nth_error_app2, Nat.sub_diag by lia. reflexivity.
Qed.

Lemma add_then_delete_witness :
  snd (delete_meal 3 (snd (add_meal dal 7%Z three_meals))) = three_meals.
Proof.
  exact (f_equal snd
           (add_then_delete dal 7%Z three_meals
              (proj1 (meal_field_errors_nil dal) eq_refl))).
Defined.

(** X10. A successful deletion at position [i] keeps every other record
    and their order: positions below [i] are untouched, positions from [i]
    on hold what was one place further; the profile then counts one meal
    less. *)
Theorem delete_meal_shifts (db : meals_db) (i : nat) :
  (i < List.length db)%nat ->
  let db' := snd (delete_meal (Z.of_nat i) db) in
  (forall j, (j < i)%nat -> nth_error db' j = nth_error db j) /\
  (forall j, (i <= j)%nat -> nth_error db' j = nth_error db (S j)) /\
  S (meal_count (get_taste_profile db')) =
    meal_count (get_taste_profile db).
Proof.
  intros Hi. cbv zeta.
  destruct (nth_error db i) as [m|] eqn:Hn;
    [|apply nth_error_None in Hn; lia].
  unfold delete_meal. rewrite (remove_in_range _ _ _ Hn). cbn [snd].
  assert (Hlen : List.length (firstn i db) = i)
    by (rewrite length_firstn; lia).
  repeat apply conj.
  - intros j Hj. rewrite nth_error_app1 by lia.
    now rewrite nth_error_firstn, (proj2 (Nat.ltb_lt j i) Hj).
  - intros j Hj. rewrite nth_error_app2 by lia.
    rewrite Hlen, nth_error_skipn. f_equal. lia.
  - rewrite !meal_count_length, length_app, Hlen, length_skipn. lia.
Qed.

Lemma delete_meal_shifts_witness :
  nth_error (snd (delete_meal 1 three_meals)) 1 = nth_error three_meals 2.
Proof.
  destruct (delete_meal_shifts three_meals 1) as (_ & H & _);
    [simpl; lia|].
  apply (H 1%nat). lia.
Defined.

(** ** Calls made by the weekly menu *)

Lemma weekly_loop_counted {World : Type}
    (run : string -> UserPreferences -> World
           -> (Exception + FusionRecipe) * World)
    (prefs : UserPreferences) (ds : list string) :
  forall acc w n,
    exists n',
      weekly_loop (World * nat) (counted run) ds prefs acc (w, n) =
        (fst (weekly_loop World run ds prefs acc w),
         (snd (weekly_loop World run ds prefs acc w), n')) /\
      (forall menu, fst (weekly_loop World run ds prefs acc w) = inr menu ->
                    n' = (n + List.length ds)%nat) /\
      (forall e, fst (weekly_loop World run ds prefs acc w) = inl e ->
         exists done day rest menu w1,
           ds = done ++ day :: rest /\
           served World run prefs done w menu w1 /\
           run (day_prompt day) prefs w1 =
             (inl e, snd (weekly_loop World run ds prefs acc w)) /\
           n' = (n + S (List.length done))%nat).
Proof.
  induction ds as [|day ds IH]; intros acc w n; simpl.
  - exists n. repeat split; [lia | discriminate].
  - unfold counted at 1. cbn [fst snd].
    destruct (run (day_prompt day) prefs w) as [[e|data] w1] eqn:Er.
    + exists (S n). cbn [fst snd]. repeat split; [discriminate|].
      intros e' He. inversion He; subst e'.
      exists [], day, ds, [], w. cbn [List.length app].
      repeat split; [constructor | exact Er | lia].
    + destruct (IH (acc ++ [WeeklyMenu.mkEntry day data]) w1 (S n))
        as (n' & E & Hok & Hbad).
      exists n'. rewrite E. repeat split.
      * intros menu Hm. rewrite (Hok menu Hm). lia.
      * intros e He.
        destruct (Hbad e He)
          as (done & d & rest & menu & w2 & -> & Hs & Hr & ->).
        exists (day :: done), d, rest,
          (WeeklyMenu.mkEntry day data :: menu), w2.
        cbn [List.length app]. repeat split; trivial; [|lia].
        now apply served_cons with w1.
Qed.

(** X11. For any agent, one run of [generate_weekly_menu] calls it at
    least once and at most seven times: exactly seven when the menu is
    returned; when it fails, the calls are those of the days served so far
    and the one that raised, and no other: the world is left as that call
    left it.  Counting the calls does not change the outcome. *)
Theorem weekly_menu_calls (World : Type)
    (run : string -> UserPreferences -> World
           -> (Exception + FusionRecipe) * World)
    (db : meals_db) (w : World) :
  let prefs := mkUserPreferences db (get_taste_profile db) in
  exists calls,
    generate_weekly_menu (World * nat) (counted run) db (w, 0%nat) =
      (fst (generate_weekly_menu World run db w),
       (snd (generate_weekly_menu World run db w), calls)) /\
    (1 <= calls <= 7)%nat /\
    (forall r, fst (generate_weekly_menu World run db w) = inr r ->
               calls = 7%nat) /\
    (forall f, fst (generate_weekly_menu World run db w) = inl f ->
       exists done day rest menu w1 e,
         days = done ++ day :: rest /\
         served World run prefs done w menu w1 /\
         run (day_prompt day) prefs w1 =
           (inl e, snd (generate_weekly_menu World run db w)) /\
         calls = S (List.length done)).
Proof.
  intros prefs. unfold generate_weekly_menu. fold prefs.
  destruct (weekly_loop_counted run prefs days [] w 0)
    as (n' & E & Hok & Hbad).
  exists n'. rewrite E.
  change (List.length days) with 7%nat in Hok.
  destruct (weekly_loop World run days prefs [] w) as [[e|menu] w1];
    cbn [fst snd] in *.
  - destruct (Hbad e eq_refl)
      as (done & d & rest & menu & w2 & Ed & Hs & Hr & ->).
    assert (Hlen : (List.length done < 7)%nat).
    { apply (f_equal (@List.length string)) in Ed.
      rewrite length_app in Ed. simpl in Ed. lia. }
    repeat split; try lia; [discriminate|].
    intros f _. exists done, d, rest, menu, w2, e. now repeat split.
  - rewrite (Hok menu eq_refl). repeat split; try lia. discriminate.
Qed.

Lemma weekly_menu_calls_witness :
  exists done day rest,
    days = done ++ day :: rest /\
    S (List.length done) = 4%nat /\
    snd (snd (generate_weekly_menu (nat * nat) (counted (counting_agent 3))
                three_meals (0%nat, 0%nat))) = S (List.length done).
Proof.
  destruct (weekly_menu_calls nat (counting_agent 3) three_meals 0%nat)
    as (calls & E & _ & _ & Hf).
  edestruct Hf as (done & day & rest & menu & w1 & e & Ed & _ & _ & Ec);
    [reflexivity|].
  apply (f_equal (fun x => snd (snd x))) in E.
  exists done, day, rest. rewrite <- Ec.
  split; [exact Ed|]. split; [symmetry; exact E | exact E].
Defined.

(** ** The user context *)

Lemma last_n_split {A} (n : nat) (l : list A) :
  exists older,
    l = older ++ last_n n l /\
    List.length (last_n n l) = Nat.min n (List.length l).
Proof.
  exists (firstn (List.length l - n) l). unfold last_n. split.
  - now rewrite firstn_skipn.
  - rewrite length_skipn. lia.
Qed.

Lemma concat_cons_nonempty sep c s (l : list string) :
  exists rest, String.concat sep (String c s :: l) = String c rest.
Proof. destruct l as [|y l]; simpl; eauto. Qed.

Lemma or_else_nonempty c s d : or_else (String c s) d = String c s.
Proof. reflexivity. Qed.

Lemma block_none_logged (line : Meal -> string) (l : list Meal) :
  (forall m, exists s, line m = String "-" s) ->
  or_else (String.concat nl (map line (last_n 5 l))) "None logged"
    = "None logged" <-> l = [].
Proof.
  intros Hline. split.
  - intros E. destruct (last_n_split 5 l) as (older & Hl & Hlen).
    destruct (last_n 5 l) as [|m ms].
    + destruct l; [reflexivity | simpl in Hlen; discriminate].
    + simpl map in E. destruct (Hline m) as (s & Hs). rewrite Hs in E.
      destruct (concat_cons_nonempty nl "-" s (map line ms)) as (rest & Hr).
      rewrite Hr, or_else_nonempty in E. discriminate.
  - intros ->. reflexivity.
Qed.

(** X12. In the context given to the agent, the block of recent home meals
    reads "None logged" exactly when the preferences hold no home meal,
    and the block of recent outside meals exactly when they hold no
    outside meal. *)
Theorem context_none_logged (prefs : UserPreferences) :
  (home_block prefs = "None logged" <-> home_meals (meals prefs) = []) /\
  (outside_block prefs = "None logged" <->
   outside_meals (meals prefs) = []).
Proof.
  split; apply block_none_logged; intros m; eexists; reflexivity.
Qed.

(** X13. The two blocks show the most recent meals only: each lists, one
    line per meal and in store order, the last five home (outside) meals
    of the preferences, or all of them when there are at most five. *)
Theorem context_recent_meals (prefs : UserPreferences) :
  (exists older recent,
     home_meals (meals prefs) = older ++ recent /\
     List.length recent =
       Nat.min 5 (List.length (home_meals (meals prefs))) /\
     home_block prefs =
       or_else (String.concat nl (map home_line recent)) "None logged") /\
  (exists older recent,
     outside_meals (meals prefs) = older ++ recent /\
     List.length recent =
       Nat.min 5 (List.length (outside_meals (meals prefs))) /\
     outside_block prefs =
       or_else (String.concat nl (map outside_line recent)) "None logged").
Proof.
  split.
  - destruct (last_n_split 5 (home_meals (meals prefs))) as (older & E & L).
    exists older, (last_n 5 (home_meals (meals prefs))). now repeat split.
  - destruct (last_n_split 5 (outside_meals (meals prefs)))
      as (older & E & L).
    exists older, (last_n 5 (outside_meals (meals prefs))). now repeat split.
Qed.

(** X14. For a non-empty store of valid meals the context names the
    favorite cuisines: the line is the comma-joined list, never the
    "Not enough data" fallback of an empty list. *)
Theorem context_names_cuisines (db : meals_db) :
  db <> [] -> Forall valid_meal db ->
  let favorites := favorite_cuisines (get_taste_profile db) in
  favorites <> [] /\
  names_line favorites = String.concat ", " favorites /\
  String.concat ", " favorites <> EmptyString.
Proof.
  intros Hne Hv. cbv zeta.
  rewrite (get_taste_profile_nonempty db Hne).
  cbn [favorite_cuisines].
  pose proof (top_tally 5 (map cuisine db)) as Hr.
  assert (Hxs : map cuisine db <> [])
    by (destruct db; [easy | discriminate]).
  destruct (ranked_top_head 5 _ _ (Nat.lt_0_succ 4) Hxs Hr)
    as (c & rest & E & _).
  rewrite E.
  assert (Hc : In c (map cuisine db))
    by (apply (top_incl _ _ _ Hr); rewrite E; now left).
  apply in_map_iff in Hc as (m & <- & Hm).
  rewrite Forall_forall in Hv. destruct (Hv m Hm) as (_ & _ & Hlen).
  destruct (cuisine m) as [|a s] eqn:Ec; [simpl in Hlen; lia|].
  destruct (concat_cons_nonempty ", " a s rest) as (r & Hr').
  unfold names_line. rewrite Hr'. repeat split; discriminate.
Qed.

Lemma context_names_cuisines_witness :
  names_line (favorite_cuisines (get_taste_profile three_meals)) =
  "Indian, Italian".
Proof.
  destruct (context_names_cuisines three_meals) as (_ & E & _);
    [discriminate | exact three_meals_valid |].
  rewrite E. reflexivity.
Defined.

(** X15. The agent gets the fixed note for new users exactly when the
    preferences hold no meal, whatever their taste profile says. *)
Theorem context_new_user (format_percent : Q -> string)
    (prefs : UserPreferences) :
  add_user_context format_percent prefs = new_user_note <->
  meals prefs = [].
Proof.
  unfold add_user_context. destruct (meals prefs) as [|m ms].
  - tauto.
  - split; discriminate.
Qed.
